(** * Skin tone estimation: a shallow embedding of [Skin_detection.ipynb]

    The development follows the source file top to bottom:
    [is_likely_skin_color], [get_dominant_non_dark_cluster],
    [get_lightness_description] and [display_skin_analysis] up to the
    triple it returns (extraction of the opaque pixels, clustering, centre
    patch, cluster selection, output image, colour summary).  Image
    decoding, the plots and the directory driver are I/O glue and are not
    embedded.

    Numbers.  Pixel values, scores and thresholds are Python and numpy
    floats; they are embedded bit for bit with Rocq's primitive binary64
    floats, and every arithmetic operation and comparison the program
    writes is the binary64 one.  [int] of a float rounds towards zero and
    raises on nan and on the infinities, as in Python.

    Library calls.  [cv2.cvtColor], [cv2.bilateralFilter], sklearn's
    [KMeans], skimage's [rgb2lab] and the numpy reductions [np.median],
    [np.var], [np.percentile] and [np.mean] are not code of this program;
    they are the fields of the class [Libraries], and every definition that
    calls one of them takes an instance.  The module [Reference] holds an
    instance to run the program on examples. *)

From Stdlib Require Import Ascii String ZArith QArith Qround List Bool Lia Lqa.
From Stdlib Require Import Permutation Sorted Floats Uint63.
Import ListNotations.

Set Warnings "-inexact-float".
Local Open Scope Z_scope.

(** ** Exceptions

    The source raises [ValueError] with a message at each failure point;
    the constructors carry the names the specification gives them. *)

Inductive error : Type :=
| EmptyInputError        (* "No non-transparent pixels found in image" *)
| InsufficientDataError  (* the exception that escapes KMeans.fit (fewer samples than clusters) *)
| EmptyCenterPatchError  (* "No valid pixels found in center patch" *)
| NoSkinPixelsError      (* "No skin pixels detected" *)
| IndexError             (* numpy / list indexing out of range or of the wrong length *)
| BroadcastError         (* numpy's ValueError: four values assigned to a pixel of another size *)
| NanToIntegerError      (* ValueError: cannot convert float NaN to integer *)
| InfinityToIntegerError. (* OverflowError: cannot convert float infinity to integer *)

Inductive result (A : Type) : Type :=
| Ok (a : A)
| Raise (e : error).

Arguments Ok {A} a.
Arguments Raise {A} e.

Definition bind {A B : Type} (m : result A) (k : A -> result B) : result B :=
  match m with
  | Ok a => k a
  | Raise e => Raise e
  end.

Notation "x <- m ;; k" := (bind m (fun x => k))
  (at level 61, m at next level, right associativity).

(** ** The library functions the program calls *)

Definition BGR : Type := (Z * Z * Z)%type.
(** One row [[r, g, b]] of a float array with three columns. *)
Definition RGB : Type := (float * float * float)%type.
Definition FeatureVector : Type := list float.

Class Libraries : Type := {
  (** [cv2.cvtColor(np.uint8([[[b, g, r]]]), cv2.COLOR_BGR2HSV)[0][0]] *)
  cvtColor_BGR2HSV : Z -> Z -> Z -> Z * Z * Z;
  (** [cv2.cvtColor(np.uint8([[[b, g, r]]]), cv2.COLOR_BGR2YCrCb)[0][0]] *)
  cvtColor_BGR2YCrCb : Z -> Z -> Z -> Z * Z * Z;
  (** [cv2.bilateralFilter(bgr, 9, 75, 75)] on a [height] x [width] grid *)
  bilateralFilter : nat -> nat -> (nat -> nat -> BGR) -> nat -> nat -> BGR;
  (** [KMeans(n_clusters=5, n_init=10).fit(features).labels_]: the labels of
      one run of the (randomly seeded) clustering, or nothing when [fit] raised *)
  KMeans_fit : list FeatureVector -> option (list nat);
  (** [color.rgb2lab(rgb)[0, 0]] of one colour with channels in [0, 1]:
      the triple (L, a, b), finite binary64 numbers given as rationals *)
  rgb2lab : RGB -> Q * Q * Q;
  (** [np.median(a, axis=0)] of an array with three columns *)
  np_median : list RGB -> RGB;
  (** [np.var(a, axis=0)] *)
  np_var : list RGB -> RGB;
  (** [np.percentile(a, q, axis=0)] *)
  np_percentile : list RGB -> Z -> RGB;
  (** [np.mean(v)] of three values: of a result of the reductions above,
      or of one row of the array ([np.mean(a, axis=1)] is this mean, row
      by row) *)
  np_mean : RGB -> float
}.

(** ** Python's numbers *)

(** [float(n)] for a Python integer that fits 63 bits. *)
Definition float_of_int (n : Z) : float := PrimFloat.of_uint63 (Uint63.of_Z n).

(** [float(n)] of a length or a count. *)
Definition float_of_nat (n : nat) : float := float_of_int (Z.of_nat n).

(** ** [is_likely_skin_color] *)

Section SkinColor.
Context {L : Libraries}.

Definition is_likely_skin_color (r g b : Z) : bool :=
  let hsv := cvtColor_BGR2HSV b g r in
  let ycrcb := cvtColor_BGR2YCrCb b g r in
  let sum_rgb := (float_of_int r + float_of_int g + float_of_int b)%float in
  if (sum_rgb =? 0)%float then false
  else
    let nr := (float_of_int r / sum_rgb)%float in
    let ng := (float_of_int g / sum_rgb)%float in
    let nb := (float_of_int b / sum_rgb)%float in
    let '(h, s, v) := hsv in
    let '(y, cr, cb) := ycrcb in
    let rgb_rule :=
      (95 <? r) && (40 <? g) && (20 <? b) &&
      (15 <? Z.max (Z.max r g) b - Z.min (Z.min r g) b) &&
      (15 <? Z.abs (r - g)) && (g <? r) && (b <? r) in
    let normalized_rule :=
      (0.35 <? nr)%float && (nb <? 0.35)%float &&
      (ng <? nr)%float && (nb <? ng)%float &&
      (PrimFloat.abs (nr - ng) <? 0.35)%float in
    let hsv_rule :=
      (0 <=? h) && (h <=? 50) && (10 <=? s) && (s <=? 180) && (80 <=? v) in
    let ycrcb_rule :=
      (135 <=? cr) && (cr <=? 180) && (85 <=? cb) && (cb <=? 135) in
    (rgb_rule && normalized_rule) || (hsv_rule && ycrcb_rule).

End SkinColor.

(** The four rules as the specification words them, each a predicate of its
    own.  The ratios are binary64 quotients, as in the program. *)

Definition RGB_rule (r g b : Z) : bool :=
  (95 <? r) && (40 <? g) && (20 <? b) &&
  (15 <? Z.max r (Z.max g b) - Z.min r (Z.min g b)) &&
  (15 <? Z.abs (r - g)) && (g <? r) && (b <? r).

Definition ratio (c sum : Z) : float := (float_of_int c / float_of_int sum)%float.

Definition normalized_RGB_rule (r g b : Z) : bool :=
  let sum := r + g + b in
  let nr := ratio r sum in
  let ng := ratio g sum in
  let nb := ratio b sum in
  (0.35 <? nr)%float && (nb <? 0.35)%float &&
  (ng <? nr)%float && (nb <? ng)%float &&
  (PrimFloat.abs (nr - ng) <? 0.35)%float.

Definition HSV_rule (hsv : Z * Z * Z) : bool :=
  let '(h, s, v) := hsv in
  (0 <=? h) && (h <=? 50) && (10 <=? s) && (s <=? 180) && (80 <=? v).

Definition YCrCb_rule (ycrcb : Z * Z * Z) : bool :=
  let '(_, cr, cb) := ycrcb in
  (135 <=? cr) && (cr <=? 180) && (85 <=? cb) && (cb <=? 135).

Definition skin_decision {L : Libraries} (r g b : Z) : bool :=
  if r + g + b =? 0 then false
  else (RGB_rule r g b && normalized_RGB_rule r g b)
       || (HSV_rule (cvtColor_BGR2HSV b g r) && YCrCb_rule (cvtColor_BGR2YCrCb b g r)).

(** ** Indexing, sorting and [int] *)

Module np.

(** Python's [int(x)] of a float: the integer part, rounding towards zero,
    [ValueError] on nan and [OverflowError] on an infinity.  [Prim2SF]
    gives the sign, the mantissa and the exponent of a finite float. *)
Definition int (x : float) : result Z :=
  match Prim2SF x with
  | S754_zero _ => Ok 0
  | S754_finite s m e =>
      let magnitude := if 0 <=? e then Z.shiftl (Z.pos m) e else Z.shiftr (Z.pos m) (- e) in
      Ok (if s then - magnitude else magnitude)
  | S754_nan => Raise NanToIntegerError
  | S754_infinity _ => Raise InfinityToIntegerError
  end.

(** A stable ascending sort by key that compares keys with [<] only, as
    Python's [list.sort(key=...)] does; on keys without nan the result of a
    stable sort is unique. *)
Fixpoint insert_by {A : Type} (key : A -> float) (x : A) (l : list A) : list A :=
  match l with
  | [] => [x]
  | y :: l' => if (key y <? key x)%float then y :: insert_by key x l' else x :: l
  end.

Definition sort_by {A : Type} (key : A -> float) (l : list A) : list A :=
  fold_right (insert_by key) [] l.

Definition red (p : RGB) : float := fst (fst p).
Definition green (p : RGB) : float := snd (fst p).
Definition blue (p : RGB) : float := snd p.

(** [a[mask]] with a boolean mask: the rows where the mask is true; numpy
    raises [IndexError] when the mask has another length than the array. *)
Definition boolean_index {A : Type} (a : list A) (mask : list bool) : result (list A) :=
  if (length a =? length mask)%nat
  then Ok (map fst (filter snd (combine a mask)))
  else Raise IndexError.

(** [a[indices]] with a list of indices, [IndexError] when one is out of range. *)
Fixpoint take {A : Type} (a : list A) (indices : list nat) : result (list A) :=
  match indices with
  | [] => Ok []
  | i :: rest =>
      match nth_error a i with
      | Some x => xs <- take a rest ;; Ok (x :: xs)
      | None => Raise IndexError
      end
  end.

End np.

(** The exact value of a finite float, a rational. *)
Definition float_value (x : float) : Q :=
  match Prim2SF x with
  | S754_finite s m e =>
      let q := if 0 <=? e then inject_Z (Z.pos m * 2 ^ e)
               else Qmake (Z.pos m) (Z.to_pos (2 ^ (- e))) in
      if s then (- q)%Q else q
  | _ => 0%Q
  end.

(** ** [get_dominant_non_dark_cluster] *)

(** One entry of the list [clusters]: the tuple
    [(i, score, brightness, size, median_color)]. *)
Record Cluster : Type := {
  cluster_id : nat;
  score : float;
  brightness : float;
  size : nat;
  median_color : RGB
}.

Section ClusterSelection.
Context {L : Libraries}.

(** [tuple(int(x * 255) for x in median_color)] *)
Definition to_8bit (c : RGB) : result (Z * Z * Z) :=
  r <- np.int (np.red c * 255)%float ;;
  g <- np.int (np.green c * 255)%float ;;
  b <- np.int (np.blue c * 255)%float ;;
  Ok (r, g, b).

(** [is_likely_skin_color( *rgb[::-1])]: the tuple is reversed and then
    spread over the parameters [(r, g, b)]. *)
Definition is_skin_of (rgb : Z * Z * Z) : bool :=
  let '(x0, x1, x2) := rgb in
  is_likely_skin_color x2 x1 x0.

(** The body of the [for i in range(n_clusters)] loop; [None] is [continue]. *)
Definition cluster_entry (pixels : list RGB) (labels : list nat) (i : nat)
  : result (option Cluster) :=
  cluster_pixels <- np.boolean_index pixels (map (fun l => Nat.eqb l i) labels) ;;
  if (length cluster_pixels =? 0)%nat then Ok None
  else
    let median_color := np_median cluster_pixels in
    let brightness := np_mean median_color in
    let color_variance := np_mean (np_var cluster_pixels) in
    let size := length cluster_pixels in
    rgb <- to_8bit median_color ;;
    let is_skin := is_skin_of rgb in
    let score := (0.4 * brightness + 0.3 * (1 - color_variance)
                  + 0.3 * (float_of_nat size / float_of_nat (length pixels)))%float in
    let score := if is_skin then (score * 1.5)%float else score in
    Ok (Some {| cluster_id := i; score := score; brightness := brightness;
                size := size; median_color := median_color |}).

Fixpoint collect_clusters (pixels : list RGB) (labels : list nat) (ids : list nat)
  : result (list Cluster) :=
  match ids with
  | [] => Ok []
  | i :: rest =>
      entry <- cluster_entry pixels labels i ;;
      clusters <- collect_clusters pixels labels rest ;;
      Ok (match entry with Some c => c :: clusters | None => clusters end)
  end.

(** The test of the second loop: bright enough, large enough, skin-like. *)
Definition meets_minimum_criteria (pixels : list RGB) (c : Cluster) : result bool :=
  if (0.15 <? brightness c)%float
     && (float_of_nat (length pixels) * 0.05 <? float_of_nat (size c))%float
  then rgb <- to_8bit (median_color c) ;; Ok (is_skin_of rgb)
  else Ok false.

(** The second loop: the id of the first cluster that passes the test,
    [None] when the loop ends without [return]. *)
Fixpoint first_acceptable (pixels : list RGB) (clusters : list Cluster)
  : result (option nat) :=
  match clusters with
  | [] => Ok None
  | c :: rest =>
      accepted <- meets_minimum_criteria pixels c ;;
      if accepted then Ok (Some (cluster_id c)) else first_acceptable pixels rest
  end.

Definition get_dominant_non_dark_cluster
  (pixels : list RGB) (labels : list nat) (n_clusters : nat) : result nat :=
  clusters <- collect_clusters pixels labels (seq 0 n_clusters) ;;
  let clusters := np.sort_by (fun x => - score x)%float clusters in
  found <- first_acceptable pixels clusters ;;
  match found with
  | Some id => Ok id
  | None =>
      match clusters with
      | c :: _ => Ok (cluster_id c)
      | [] => Raise IndexError
      end
  end.

End ClusterSelection.

(** ** [rgb_to_lab] and [get_lightness_description] *)

Definition rgb_to_lab {L : Libraries} (r g b : Z) : Q :=
  let rgb := (float_of_int r / 255, float_of_int g / 255, float_of_int b / 255)%float in
  let lab := rgb2lab rgb in
  fst (fst lab).

Local Open Scope string_scope.

(** [L_value] is a finite binary64 number, hence a rational; comparing it
    with an integer bound is comparing rationals. *)
Definition get_lightness_description (L_value : Q) : string :=
  if Qle_bool 85 L_value then "Very Light"
  else if Qle_bool 70 L_value then "Light"
  else if Qle_bool 55 L_value then "Medium Light"
  else if Qle_bool 40 L_value then "Medium"
  else if Qle_bool 25 L_value then "Medium Dark"
  else if Qle_bool 10 L_value then "Dark"
  else "Very Dark".

(** The seven bands as the specification lists them: a name and the
    half-open interval of lightness values it covers (the top band also
    holds 100). *)
Definition band (name : string) (L_value : Q) : Prop :=
  (name = "Very Light" /\ 85 <= L_value <= 100
   \/ name = "Light" /\ 70 <= L_value < 85
   \/ name = "Medium Light" /\ 55 <= L_value < 70
   \/ name = "Medium" /\ 40 <= L_value < 55
   \/ name = "Medium Dark" /\ 25 <= L_value < 40
   \/ name = "Dark" /\ 10 <= L_value < 25
   \/ name = "Very Dark" /\ 0 <= L_value < 10)%Q.

Definition categories : list string :=
  ["Very Light"; "Light"; "Medium Light"; "Medium"; "Medium Dark"; "Dark"; "Very Dark"].

Local Close Scope string_scope.

(** ** [display_skin_analysis] *)

(** A decoded image ([cv2.imread(..., cv2.IMREAD_UNCHANGED)]): a [height] x
    [width] grid of 8-bit blue, green and red, and the opacity plane when the
    file has one ([image.shape[2] == 4]). *)
Record Image : Type := {
  height : nat;
  width : nat;
  image_bgr : nat -> nat -> BGR;
  image_alpha : option (nat -> nat -> Z)
}.

(** One element [filtered[row, col]]: three or four channels. *)
Inductive Pixel : Type :=
| Pixel3 (b g r : Z)
| Pixel4 (b g r a : Z).

(** What the summarizer hands back to the caller: [(L, lightness_category, rgb)]. *)
Definition SkinProfile : Type := (Q * string * (Z * Z * Z))%type.

(** [r / 255] of the extraction loop and [x * 255] of
    [tuple(int(x * 255) for x in median_color)], in binary64. *)
Definition normalized (c : Z) : float := (float_of_int c / 255)%float.
Definition times_255 (x : float) : float := (x * 255)%float.

(** *** The output image

    [output = np.zeros_like(image)] and the loop that copies the pixels of
    the selected cluster from the original image and paints every other
    valid pixel with the four values [255, 240, 180, 255]. *)

(** [image[row, col]]: three values, or four with the opacity. *)
Definition image_at (image : Image) (row col : nat) : list Z :=
  let '(b, g, r) := image_bgr image row col in
  match image_alpha image with
  | Some alpha => [b; g; r; alpha row col]
  | None => [b; g; r]
  end.

Definition zeros_like (image : Image) : nat -> nat -> list Z :=
  fun row col => map (fun _ => 0) (image_at image row col).

Definition set_pixel (output : nat -> nat -> list Z) (row col : nat) (value : list Z)
  : nat -> nat -> list Z :=
  fun row' col' => if (row' =? row)%nat && (col' =? col)%nat then value else output row' col'.

Definition mask_color : list Z := [255; 240; 180; 255].

(** What the loop ends with: the output array, the [IndexError] of
    [kmeans.labels_[idx]], or the [ValueError] numpy raises when four values
    are assigned to a pixel of another size. *)
Inductive output_result : Type :=
| Output (output : nat -> nat -> list Z)
| OutputIndexError
| OutputValueError.

(** [for idx, (row, col) in enumerate(valid_pixel_coords): ...] *)
Fixpoint paint_output (image : Image) (labels : list nat) (skin_cluster : nat)
  (entries : list (nat * (nat * nat))) (output : nat -> nat -> list Z) : output_result :=
  match entries with
  | [] => Output output
  | (idx, (row, col)) :: rest =>
      match nth_error labels idx with
      | None => OutputIndexError
      | Some label =>
          if (label =? skin_cluster)%nat
          then paint_output image labels skin_cluster rest
                 (set_pixel output row col (image_at image row col))
          else if (length (output row col) =? length mask_color)%nat
          then paint_output image labels skin_cluster rest
                 (set_pixel output row col mask_color)
          else OutputValueError
      end
  end.

Section Pipeline.
Context {L : Libraries}.

(** The bilateral filter smooths the colour planes; the opacity plane is
    put back unchanged ([np.dstack((filtered, alpha))]). *)
Definition filtered (image : Image) (row col : nat) : Pixel :=
  let '(b, g, r) := bilateralFilter (height image) (width image) (image_bgr image) row col in
  match image_alpha image with
  | Some alpha => Pixel4 b g r (alpha row col)
  | None => Pixel3 b g r
  end.

(** The body of the two nested extraction loops for one position: nothing
    for a transparent pixel, otherwise the feature vector, the normalized
    colour and the coordinates that are appended to the three lists. *)
Definition extract_pixel (pixel : Pixel) (row col : nat)
  : option (FeatureVector * RGB * (nat * nat)) :=
  let '(b, g, r, a) :=
    match pixel with
    | Pixel4 b g r a => (b, g, r, a)
    | Pixel3 b g r => (b, g, r, 255)
    end in
  if 127 <? a then
    let '(r_norm, g_norm, b_norm) :=
      (float_of_int r / 255, float_of_int g / 255, float_of_int b / 255)%float in
    let '(h, s, v) := cvtColor_BGR2HSV b g r in
    let '(h_norm, s_norm, v_norm) :=
      (float_of_int h / 179, float_of_int s / 255, float_of_int v / 255)%float in
    let '(y, cr, cb) := cvtColor_BGR2YCrCb b g r in
    let '(y_norm, cr_norm, cb_norm) :=
      (float_of_int y / 255, float_of_int cr / 255, float_of_int cb / 255)%float in
    let feature_vector :=
      [r_norm; g_norm; b_norm; h_norm; s_norm; v_norm; y_norm; cr_norm; cb_norm] in
    Some (feature_vector, (r_norm, g_norm, b_norm), (row, col))
  else None.

(** [for row in range(height): for col in range(width): ...] *)
Definition extract (image : Image) : list (FeatureVector * RGB * (nat * nat)) :=
  flat_map (fun row =>
    flat_map (fun col =>
      match extract_pixel (filtered image row col) row col with
      | Some entry => [entry]
      | None => []
      end) (seq 0 (width image))) (seq 0 (height image)).

Definition features (image : Image) : list FeatureVector := map (fun e => fst (fst e)) (extract image).
Definition pixels (image : Image) : list RGB := map (fun e => snd (fst e)) (extract image).
Definition valid_pixel_coords (image : Image) : list (nat * nat) := map snd (extract image).

(** The test on one coordinate pair in the centre-patch loop. *)
Definition in_center_patch (image : Image) (coord : nat * nat) : bool :=
  let '(row, col) := coord in
  let center_x := Z.of_nat (width image) / 2 in
  let center_y := Z.of_nat (height image) / 2 in
  let patch_size := Z.min (Z.of_nat (width image)) (Z.of_nat (height image)) / 4 in
  (Z.abs (Z.of_nat col - center_x) <? patch_size)
  && (Z.abs (Z.of_nat row - center_y) <? patch_size).

(** [for idx, (row, col) in enumerate(valid_pixel_coords): ...] *)
Definition center_pixels (image : Image) : list nat :=
  let coords := valid_pixel_coords image in
  map fst (filter (fun ic => in_center_patch image (snd ic))
                  (combine (seq 0 (length coords)) coords)).

(** [for idx, (row, col) in enumerate(valid_pixel_coords): ...], the loop
    that fills the output image. *)
Definition skin_detection_output (image : Image) (labels : list nat)
  (skin_cluster : nat) : output_result :=
  let coords := valid_pixel_coords image in
  paint_output image labels skin_cluster
    (combine (seq 0 (length coords)) coords) (zeros_like image).

(** The colour summary, the block of [display_skin_analysis] that starts at
    [bright_threshold] and ends at [rgb]: 95th percentile per channel,
    brightness filter with fallback, median, 8-bit colour. *)
Definition skin_tone_color (skin_pixels : list RGB) : result (Z * Z * Z) :=
  let bright_threshold := np_percentile skin_pixels 95 in
  let bright_mask :=
    map (fun m => (np_mean bright_threshold * 0.7 <? m)%float)
        (map np_mean skin_pixels) in
  skin_pixels_filtered <- np.boolean_index skin_pixels bright_mask ;;
  let skin_pixels_filtered :=
    if (length skin_pixels_filtered =? 0)%nat then skin_pixels else skin_pixels_filtered in
  let median_color := np_median skin_pixels_filtered in
  to_8bit median_color.

(** The computation of the triple that [display_skin_analysis] returns, from
    the decoded image on.  Every [raise] of the source is kept, in the
    source's order, and so are the exceptions of the loop that fills the
    output image. *)
Definition display_skin_analysis (image : Image) : result SkinProfile :=
  let pixels := pixels image in
  let features := features image in
  if (length pixels =? 0)%nat then Raise EmptyInputError
  else
    labels <- match KMeans_fit features with
              | Some labels => Ok labels
              | None => Raise InsufficientDataError
              end ;;
    let center_pixels := center_pixels image in
    if (length center_pixels =? 0)%nat then Raise EmptyCenterPatchError
    else
      center_pixels_colors <- np.take pixels center_pixels ;;
      center_pixels_labels <- np.take labels center_pixels ;;
      skin_cluster <-
        get_dominant_non_dark_cluster center_pixels_colors center_pixels_labels 5 ;;
      output <- match skin_detection_output image labels skin_cluster with
                | Output output => Ok output
                | OutputIndexError => Raise IndexError
                | OutputValueError => Raise BroadcastError
                end ;;
      skin_pixels <- np.boolean_index pixels (map (fun l => Nat.eqb l skin_cluster) labels) ;;
      if (length skin_pixels =? 0)%nat then Raise NoSkinPixelsError
      else
        rgb <- skin_tone_color skin_pixels ;;
        let '(r, g, b) := rgb in
        let L_value := rgb_to_lab r g b in
        let lightness_category := get_lightness_description L_value in
        Ok (L_value, lightness_category, rgb).

End Pipeline.

(** Modelled from the spec: the clustering step itself ([KMeans.fit] of
    scikit-learn) is not in src/; the specification gives its contract.
    Fewer than five feature vectors make it fail (the failure that the
    program lets escape as [InsufficientDataError]); otherwise it returns
    one label per vector, each label naming one of the five groups. *)
Definition PixelClusterer_contract (fit : list FeatureVector -> option (list nat)) : Prop :=
  forall fs : list FeatureVector,
    ((length fs < 5)%nat -> fit fs = None) /\
    ((5 <= length fs)%nat ->
     exists labels, fit fs = Some labels
                    /\ length labels = length fs
                    /\ Forall (fun l => (l < 5)%nat) labels).

(** The group of a cluster id: the positions that carry it as label. *)
Definition group (labels : list nat) (k : nat) : list nat :=
  filter (fun i => Nat.eqb (nth i labels 0%nat) k) (seq 0 (length labels)).

(** ** A concrete instance for running the program on examples *)

Module Reference.

(** OpenCV's 8-bit BGR-to-HSV conversion with the hue range 180: fixed-point
    division tables with 12 fractional bits. *)
Definition hsv_shift : Z := 12.

(** [saturate_cast<int>(n / (1. * d))]: the nearest integer (no quotient below is
    half-way between two integers). *)
Definition round_div (n d : Z) : Z := (2 * n + d) / (2 * d).

Definition sdiv_table (i : Z) : Z :=
  if i =? 0 then 0 else round_div (Z.shiftl 255 hsv_shift) i.

Definition hdiv_table180 (i : Z) : Z :=
  if i =? 0 then 0 else round_div (Z.shiftl 180 hsv_shift) (6 * i).

Definition BGR2HSV (b g r : Z) : Z * Z * Z :=
  let v := Z.max (Z.max b g) r in
  let vmin := Z.min (Z.min b g) r in
  let diff := v - vmin in
  let s := Z.shiftr (diff * sdiv_table v + Z.shiftl 1 (hsv_shift - 1)) hsv_shift in
  let h :=
    if v =? r then g - b
    else if v =? g then b - r + 2 * diff
    else r - g + 4 * diff in
  let h := Z.shiftr (h * hdiv_table180 diff + Z.shiftl 1 (hsv_shift - 1)) hsv_shift in
  let h := if h <? 0 then h + 180 else h in
  (h, s, v).

(** OpenCV's 8-bit BGR-to-YCrCb conversion: 14 fractional bits. *)
Definition yuv_shift : Z := 14.
Definition descale (x : Z) : Z := Z.shiftr (x + Z.shiftl 1 (yuv_shift - 1)) yuv_shift.
Definition saturate_uchar (x : Z) : Z := Z.max 0 (Z.min 255 x).

Definition BGR2YCrCb (b g r : Z) : Z * Z * Z :=
  let y := descale (b * 1868 + g * 9617 + r * 4899) in
  let delta := Z.shiftl 128 yuv_shift in
  let cr := descale ((r - y) * 11682 + delta) in
  let cb := descale ((b - y) * 9241 + delta) in
  (saturate_uchar y, saturate_uchar cr, saturate_uchar cb).

(** A clusterer within the contract: position [i] gets label [i mod 5]. *)
Definition fit (fs : list FeatureVector) : option (list nat) :=
  if (length fs <? 5)%nat then None
  else Some (map (fun i => Nat.modulo i 5) (seq 0 (length fs))).

(** numpy's reductions in binary64, as numpy 1.22 and later compute them:
    sums along a column taken row after row, the median as the middle
    order statistic or the mean of the two middle ones, the percentile by
    linear interpolation between the two order statistics around the
    virtual index [(n - 1) * (q / 100)]. *)
Definition sort (l : list float) : list float := np.sort_by (fun x => x) l.

(** The integer part of a non-negative finite float. *)
Definition floor (x : float) : nat :=
  match np.int x with
  | Ok n => Z.to_nat n
  | Raise _ => 0%nat
  end.

Definition sum (l : list float) : float :=
  match l with
  | [] => 0%float
  | x :: rest => fold_left PrimFloat.add rest x
  end.

Definition mean1 (l : list float) : float := (sum l / float_of_nat (length l))%float.

Definition var1 (l : list float) : float :=
  let m := mean1 l in mean1 (map (fun x => ((x - m) * (x - m))%float) l).

Definition median1 (l : list float) : float :=
  let s := sort l in
  let n := length l in
  if Nat.even n
  then ((nth (n / 2 - 1) s 0 + nth (n / 2) s 0) / 2)%float
  else nth (n / 2) s 0%float.

Definition percentile1 (q : Z) (l : list float) : float :=
  let s := sort l in
  let n := length l in
  let virtual_index := (float_of_nat (n - 1) * (float_of_int q / 100))%float in
  let above := (float_of_nat (n - 1) <=? virtual_index)%float in
  let previous := if above then (n - 1)%nat else floor virtual_index in
  let next := if above then (n - 1)%nat else S previous in
  let gamma :=
    if above then (virtual_index + 1)%float
    else (virtual_index - float_of_nat previous)%float in
  let a := nth previous s 0%float in
  let b := nth next s 0%float in
  let diff_b_a := (b - a)%float in
  if (0.5 <=? gamma)%float
  then (b - diff_b_a * (1 - gamma))%float
  else (a + diff_b_a * gamma)%float.

Definition axis0 (f : list float -> float) (a : list RGB) : RGB :=
  (f (map np.red a), f (map np.green a), f (map np.blue a)).

Definition mean3 (v : RGB) : float :=
  let '(x0, x1, x2) := v in ((x0 + x1 + x2) / 3)%float.

(** Stand-ins: images of one colour pass the bilateral filter unchanged, and
    the lightness is replaced by a luma percentage; no property below
    depends on either. *)
Definition no_filter (h w : nat) (grid : nat -> nat -> BGR) : nat -> nat -> BGR := grid.

Definition luma (c : RGB) : Q * Q * Q :=
  let '(r, g, b) := c in
  ((299 * float_value r + 587 * float_value g + 114 * float_value b) / 10, 0, 0)%Q.

Definition libraries : Libraries := {|
  cvtColor_BGR2HSV := BGR2HSV;
  cvtColor_BGR2YCrCb := BGR2YCrCb;
  bilateralFilter := no_filter;
  KMeans_fit := fit;
  rgb2lab := luma;
  np_median := axis0 median1;
  np_var := axis0 var1;
  np_percentile := fun a q => axis0 (percentile1 q) a;
  np_mean := mean3
|}.

End Reference.

(** ** Example inputs *)

Definition uniform_image (h w : nat) (c : BGR) (alpha : option Z) : Image := {|
  height := h;
  width := w;
  image_bgr := fun _ _ => c;
  image_alpha := option_map (fun a => fun _ _ => a) alpha
|}.

(** The normalized colour of an 8-bit colour, as the extraction loop stores it. *)
Definition normalized_rgb (r g b : Z) : RGB := (normalized r, normalized g, normalized b).

(** A light skin colour and the same colour with red and blue exchanged. *)
Definition skin_rgb : RGB := normalized_rgb 200 150 120.
Definition blue_rgb : RGB := normalized_rgb 120 150 200.

(** ** Vocabulary of the statements *)

(** The opacity the program works with at a position: the alpha value, or
    255 for an image without an opacity plane. *)
Definition opacity (image : Image) (row col : nat) : Z :=
  match image_alpha image with
  | Some alpha => alpha row col
  | None => 255
  end.

(** All positions of a grid in row-major order. *)
Definition all_coords (h w : nat) : list (nat * nat) :=
  flat_map (fun row => map (fun col => (row, col)) (seq 0 w)) (seq 0 h).

(** The pixels that carry label [i]. *)
Definition members (pixels : list RGB) (labels : list nat) (i : nat) : list RGB :=
  map fst (filter (fun pl => Nat.eqb (snd pl) i) (combine pixels labels)).

(** The score of the specification for the pixels of one cluster:
    0.4 brightness + 0.3 (1 - variance) + 0.3 size / total, times 1.5 for a
    cluster flagged skin-like. *)
Definition expected_score {L : Libraries} (pixels cluster_pixels : list RGB) (is_skin : bool)
  : float :=
  let base := (0.4 * np_mean (np_median cluster_pixels)
               + 0.3 * (1 - np_mean (np_var cluster_pixels))
               + 0.3 * (float_of_nat (length cluster_pixels) / float_of_nat (length pixels)))%float in
  if is_skin then (base * 1.5)%float else base.

(** The integer part of a rational (rounding towards zero). *)
Definition truncate (q : Q) : Z := Z.quot (Qnum q) (Z.pos (Qden q)).

(** The summarizer as the specification words it: the 95th percentile per
    channel, the threshold 0.7 times the mean of the three percentiles, the
    pixels whose channel mean exceeds it (all pixels when none does), and
    their per-channel median scaled by 255 and truncated. *)
Definition brightness_threshold {L : Libraries} (skin_pixels : list RGB) : float :=
  (np_mean (np_percentile skin_pixels 95) * 0.7)%float.

Definition kept_pixels {L : Libraries} (skin_pixels : list RGB) : list RGB :=
  let bright :=
    filter (fun p => (brightness_threshold skin_pixels <? np_mean p)%float) skin_pixels in
  match bright with
  | [] => skin_pixels
  | _ :: _ => bright
  end.

Definition SkinColorSummarizer {L : Libraries} (skin_pixels : list RGB) : Z * Z * Z :=
  let '(r, g, b) := np_median (kept_pixels skin_pixels) in
  (truncate (float_value (r * 255)), truncate (float_value (g * 255)),
   truncate (float_value (b * 255))).


(** The centred square of the specification: half-width [min(width, height) // 4]
    around [(width // 2, height // 2)]. *)
Definition in_patch (image : Image) (row col : nat) : Prop :=
  let half_width := Z.min (Z.of_nat (width image)) (Z.of_nat (height image)) / 4 in
  Z.abs (Z.of_nat col - Z.of_nat (width image) / 2) < half_width
  /\ Z.abs (Z.of_nat row - Z.of_nat (height image) / 2) < half_width.


(** Three bright pixels and a dark one: the brightness filter drops the dark one. *)
Definition bright_and_dark : list RGB :=
  [normalized_rgb 200 150 120; normalized_rgb 20 10 5;
   normalized_rgb 210 160 130; normalized_rgb 190 140 110].

(** Three saturated primaries: no pixel is as bright as the threshold. *)
Definition primaries : list RGB := [(1, 0, 0); (0, 1, 0); (0, 0, 1)]%float.


(** Two clusters that pass the skin test, with different scores. *)
Definition two_flagged_pixels : list RGB :=
  [normalized_rgb 112 150 208; normalized_rgb 120 150 200].
Definition flagged_clusters : list Cluster :=
  Eval vm_compute in
    match collect_clusters (L := Reference.libraries) two_flagged_pixels [0; 1]%nat (seq 0 5) with
    | Ok clusters => clusters
    | Raise _ => []
    end.

(** A fully transparent image and a fully opaque 2 x 2 image. *)
Definition transparent_image : Image := uniform_image 4 4 (120, 150, 200) (Some 0).
Definition tiny_image : Image := uniform_image 2 2 (120, 150, 200) None.
(** A fully opaque 3 x 3 image: nine valid pixels, and a patch of half-width 0. *)
Definition small_image : Image := uniform_image 3 3 (120, 150, 200) None.

(** Exhaustive checks over an initial segment of the integers. *)

Fixpoint all_below (n : nat) (P : Z -> bool) : bool :=
  match n with
  | O => true
  | S k => P (Z.of_nat k) && all_below k P
  end.

(** ** Further parts of the program *)

(** *** The colour as text: [f"#{rgb[0]:02x}{rgb[1]:02x}{rgb[2]:02x}"] *)

Definition hex_digit (d : Z) : Ascii.ascii :=
  match d with
  | 0 => "0" | 1 => "1" | 2 => "2" | 3 => "3" | 4 => "4" | 5 => "5" | 6 => "6" | 7 => "7"
  | 8 => "8" | 9 => "9" | 10 => "a" | 11 => "b" | 12 => "c" | 13 => "d" | 14 => "e"
  | _ => "f"
  end%char.

Fixpoint hex_digits (fuel : nat) (n : Z) (rest : string) : string :=
  match fuel with
  | O => rest
  | S fuel' =>
      let rest' := String (hex_digit (n mod 16)) rest in
      if n / 16 =? 0 then rest' else hex_digits fuel' (n / 16) rest'
  end.

(** [format(n, "x")] of a non-negative integer. *)
Definition hex (n : Z) : string := hex_digits (S (Z.to_nat (Z.log2 n))) n EmptyString.

(** [format(n, "02x")]: lower-case hexadecimal, zero-padded to two
    characters, the sign of a negative number counting as one of them. *)
Definition format_02x (n : Z) : string :=
  if n <? 0 then String "-"%char (hex (- n))
  else
    let digits := hex n in
    if (String.length digits <? 2)%nat then String "0"%char digits else digits.

Definition rgb_hex (rgb : Z * Z * Z) : string :=
  let '(r, g, b) := rgb in
  String "#"%char (format_02x r ++ format_02x g ++ format_02x b)%string.

(** Reading a colour back from the text [#rrggbb]. *)
Definition hex_value (c : Ascii.ascii) : option Z :=
  let n := Z.of_N (Ascii.N_of_ascii c) in
  if (48 <=? n) && (n <=? 57) then Some (n - 48)
  else if (97 <=? n) && (n <=? 102) then Some (n - 87)
  else None.

Definition hex_pair (hi lo : Ascii.ascii) : option Z :=
  match hex_value hi, hex_value lo with
  | Some h, Some l => Some (16 * h + l)
  | _, _ => None
  end.

Definition parse_rgb_hex (s : string) : option (Z * Z * Z) :=
  match s with
  | String hash (String r1 (String r0 (String g1 (String g0 (String b1 (String b0 EmptyString)))))) =>
      if Ascii.eqb hash "#"%char then
        match hex_pair r1 r0, hex_pair g1 g0, hex_pair b1 b0 with
        | Some r, Some g, Some b => Some (r, g, b)
        | _, _, _ => None
        end
      else None
  | _ => None
  end.

(** *** Vocabulary *)

(** The place of a category in the list from lightest to darkest. *)
Fixpoint index_of (name : string) (names : list string) : nat :=
  match names with
  | [] => 0
  | x :: rest => if String.eqb name x then 0 else S (index_of name rest)
  end.

Definition category_index (name : string) : nat := index_of name categories.

(** The entry the extraction loop appends for a valid position. *)
Definition entry_at {L : Libraries} (image : Image) (coord : nat * nat)
  : FeatureVector * RGB * (nat * nat) :=
  let '(row, col) := coord in
  let '(b, g, r) := bilateralFilter (height image) (width image) (image_bgr image) row col in
  let '(h, s, v) := cvtColor_BGR2HSV b g r in
  let '(y, cr, cb) := cvtColor_BGR2YCrCb b g r in
  ([float_of_int r / 255; float_of_int g / 255; float_of_int b / 255;
    float_of_int h / 179; float_of_int s / 255; float_of_int v / 255;
    float_of_int y / 255; float_of_int cr / 255; float_of_int cb / 255]%float,
   normalized_rgb r g b, (row, col)).

(** Row-major order of positions. *)
Definition row_major_lt (p q : nat * nat) : Prop :=
  (fst p < fst q)%nat \/ (fst p = fst q /\ (snd p < snd q)%nat).

(** A 2 x 2 image without opacity plane, and one with. *)
Definition opaque_bgr_image : Image := uniform_image 2 2 (120, 150, 200) None.
Definition opaque_bgra_image : Image := uniform_image 2 2 (120, 150, 200) (Some 255).


(** *** The order of binary64

    A float that is not nan has a place in a lexicographic order of integer
    triples: the class (negative infinity, negative, zero, positive,
    positive infinity), then exponent and mantissa, negated for the
    negative numbers.  [SFcompare] compares these places. *)
Definition rank (f : spec_float) : Z * Z * Z :=
  match f with
  | S754_nan => (0, 0, 0)
  | S754_zero _ => (0, 0, 0)
  | S754_infinity s => (if s then -2 else 2, 0, 0)
  | S754_finite s m e => if s then (-1, - e, - Z.pos m) else (1, e, Z.pos m)
  end.

Definition lex_compare (p q : Z * Z * Z) : comparison :=
  let '(a1, b1, c1) := p in
  let '(a2, b2, c2) := q in
  match a1 ?= a2 with
  | Eq => match b1 ?= b2 with
          | Eq => c1 ?= c2
          | other => other
          end
  | other => other
  end.

Definition lex_lt (p q : Z * Z * Z) : Prop := lex_compare p q = Lt.
Definition lex_le (p q : Z * Z * Z) : Prop := lex_compare p q <> Gt.
Definition place (x : float) : Z * Z * Z := rank (Prim2SF x).

(** A float that is neither nan nor an infinity. *)
Definition is_finite (x : float) : bool :=
  match Prim2SF x with
  | S754_zero _ | S754_finite _ _ _ => true
  | S754_nan | S754_infinity _ => false
  end.

(** A colour that [to_8bit] converts: its channels times 255 are finite. *)
Definition convertible (c : RGB) : bool :=
  is_finite (np.red c * 255) && is_finite (np.green c * 255) && is_finite (np.blue c * 255).

(** The skin test of both loops of the selection on a normalized colour. *)
Definition skin_test {L : Libraries} (c : RGB) : result bool :=
  rgb <- to_8bit c ;; Ok (is_skin_of rgb).

(** The two exceptions of [int] on a float. *)
Definition conversion_error (e : error) : Prop :=
  e = NanToIntegerError \/ e = InfinityToIntegerError.
(** * Properties *)

Lemma all_below_spec (n : nat) (P : Z -> bool) :
  all_below n P = true -> forall z, 0 <= z < Z.of_nat n -> P z = true.
Proof.
  induction n as [|k IH]; intros H z Hz.
  - lia.
  - cbn [all_below] in H. apply andb_prop in H as [Hk Hrest].
    destruct (Z.eq_dec z (Z.of_nat k)) as [->|Hne]; [exact Hk|].
    apply IH; [exact Hrest|lia].
Qed.

(** Sums of two and of three 8-bit integers are exact in binary64. *)

Lemma float_add_small (x y : Z) :
  0 <= x < 511 -> 0 <= y < 256 ->
  (float_of_int x + float_of_int y)%float = float_of_int (x + y).
Proof.
  intros Hx Hy.
  assert (H : all_below 511 (fun x => all_below 256 (fun y =>
            Leibniz.eqb (float_of_int x + float_of_int y)%float
                        (float_of_int (x + y)))) = true)
    by (vm_compute; reflexivity).
  pose proof (all_below_spec _ _ H x Hx) as H1. cbv beta in H1.
  pose proof (all_below_spec _ _ H1 y Hy) as H2. cbv beta in H2.
  apply Leibniz.eqb_spec in H2. exact H2.
Qed.

Lemma float_sum_rgb (r g b : Z) :
  0 <= r <= 255 -> 0 <= g <= 255 -> 0 <= b <= 255 ->
  (float_of_int r + float_of_int g + float_of_int b)%float = float_of_int (r + g + b).
Proof.
  intros Hr Hg Hb.
  rewrite (float_add_small r g) by lia.
  apply float_add_small; lia.
Qed.

Lemma float_sum_is_zero (n : Z) :
  0 <= n < 766 -> (float_of_int n =? 0)%float = (n =? 0).
Proof.
  intros Hn.
  assert (H : all_below 766 (fun n =>
            Bool.eqb (float_of_int n =? 0)%float (n =? 0)) = true)
    by (vm_compute; reflexivity).
  pose proof (all_below_spec _ _ H n Hn) as H1. cbv beta in H1.
  apply Bool.eqb_prop in H1. exact H1.
Qed.

Lemma max3_assoc (r g b : Z) : Z.max (Z.max r g) b = Z.max r (Z.max g b).
Proof. lia. Qed.

Lemma min3_assoc (r g b : Z) : Z.min (Z.min r g) b = Z.min r (Z.min g b).
Proof. lia. Qed.

(** C2.  For 8-bit channels the classifier answers false when the channels
    sum to zero and otherwise exactly (RGB-rule and normalized-rule) or
    (HSV-rule and YCrCb-rule), the rules being those of the specification
    and the two colour conversions those of the library. *)
Theorem is_likely_skin_color_decision (L : Libraries) (r g b : Z) :
  0 <= r <= 255 -> 0 <= g <= 255 -> 0 <= b <= 255 ->
  (r + g + b = 0 -> is_likely_skin_color r g b = false) /\
  (r + g + b <> 0 ->
   is_likely_skin_color r g b =
   (RGB_rule r g b && normalized_RGB_rule r g b)
   || (HSV_rule (cvtColor_BGR2HSV b g r) && YCrCb_rule (cvtColor_BGR2YCrCb b g r))) /\
  is_likely_skin_color r g b = skin_decision r g b.
Proof.
  intros Hr Hg Hb.
  assert (Hmain : is_likely_skin_color r g b = skin_decision r g b).
  { unfold is_likely_skin_color, skin_decision.
    rewrite (float_sum_rgb r g b Hr Hg Hb).
    rewrite float_sum_is_zero by lia.
    destruct (r + g + b =? 0); [reflexivity|].
    unfold RGB_rule, normalized_RGB_rule, ratio, HSV_rule, YCrCb_rule.
    rewrite max3_assoc, min3_assoc.
    destruct (cvtColor_BGR2HSV b g r) as [[h s] v].
    destruct (cvtColor_BGR2YCrCb b g r) as [[y cr] cb].
    reflexivity. }
  split; [|split].
  - intros H0. rewrite Hmain. unfold skin_decision.
    rewrite H0. reflexivity.
  - intros Hne. rewrite Hmain. unfold skin_decision.
    destruct (Z.eqb_spec (r + g + b) 0); [contradiction|reflexivity].
  - exact Hmain.
Qed.

(** ** Lightness categories *)

Lemma Qle_bool_false (x y : Q) : Qle_bool x y = false -> (y < x)%Q.
Proof.
  intros H. apply Qnot_le_lt. intros Hle.
  apply Qle_bool_iff in Hle. congruence.
Qed.

Ltac split_Qle :=
  repeat match goal with
  | |- context [Qle_bool ?a ?b] =>
      let E := fresh "E" in
      destruct (Qle_bool a b) eqn:E;
      [apply Qle_bool_iff in E | apply Qle_bool_false in E]
  end.

Ltac band_cases H :=
  repeat match type of H with
  | _ \/ _ => destruct H as [H|H]
  end;
  destruct H as [Hname Hrange].

(** C5.  On [0, 100] the description is one of the seven categories, it is
    the name of the one band that holds the value (the bands have
    inclusive lower bounds 85, 70, 55, 40, 25, 10, so no value is in two
    bands or in none), and each bound maps to the higher band. *)
Theorem lightness_bands_partition (L_value : Q) :
  (0 <= L_value <= 100)%Q ->
  In (get_lightness_description L_value) categories /\
  NoDup categories /\
  (forall name, band name L_value <-> name = get_lightness_description L_value) /\
  (get_lightness_description 85 = "Very Light"
   /\ get_lightness_description 70 = "Light"
   /\ get_lightness_description 55 = "Medium Light"
   /\ get_lightness_description 40 = "Medium"
   /\ get_lightness_description 25 = "Medium Dark"
   /\ get_lightness_description 10 = "Dark")%string.
Proof.
  intros [Hlo Hhi].
  split; [|split; [|split]].
  - unfold get_lightness_description, categories. split_Qle; simpl; tauto.
  - unfold categories.
    repeat (apply NoDup_cons; [simpl; intuition discriminate|]).
    apply NoDup_nil.
  - intros name. split.
    + intros H. unfold band in H. unfold get_lightness_description.
      band_cases H; subst name; split_Qle; try reflexivity; exfalso; lra.
    + intros ->. unfold get_lightness_description, band.
      split_Qle; [left|right;left|right;right;left|right;right;right;left|
                  right;right;right;right;left|right;right;right;right;right;left|
                  right;right;right;right;right;right];
        (split; [reflexivity|lra]).
  - repeat split; reflexivity.
Qed.

Lemma lightness_bands_partition_witness :
  (0 <= 62 <= 100)%Q /\
  (forall name, band name 62 <-> name = "Medium Light"%string).
Proof.
  split; [lra|].
  apply (lightness_bands_partition 62). lra.
Defined.

(** ** Extraction of the valid pixels *)

Lemma map_flat_map {A B C : Type} (f : B -> C) (g : A -> list B) (l : list A) :
  map f (flat_map g l) = flat_map (fun x => map f (g x)) l.
Proof.
  induction l as [|x l IH]; simpl; [reflexivity|].
  rewrite map_app, IH. reflexivity.
Qed.

Lemma flat_map_singleton {A B : Type} (f : A -> B) (l : list A) :
  flat_map (fun x => [f x]) l = map f l.
Proof.
  induction l as [|x l IH]; simpl; [reflexivity|].
  rewrite IH. reflexivity.
Qed.

Lemma no_element_nil {A : Type} (l : list A) :
  (forall x, ~ In x l) -> l = [].
Proof.
  destruct l as [|x l]; [reflexivity|].
  intros H. exfalso. apply (H x). left. reflexivity.
Qed.

Section ExtractionFacts.
Context {L : Libraries}.

(** What one position contributes to [valid_pixel_coords]. *)
Lemma extract_pixel_coords (image : Image) (row col : nat) :
  map snd (match extract_pixel (filtered image row col) row col with
           | Some entry => [entry]
           | None => []
           end)
  = if 127 <? opacity image row col then [(row, col)] else [].
Proof.
  unfold filtered, opacity, extract_pixel.
  destruct (bilateralFilter _ _ _ row col) as [[b g] r].
  destruct (image_alpha image) as [alpha|].
  - destruct (127 <? alpha row col); [|reflexivity].
    destruct (cvtColor_BGR2HSV b g r) as [[h s] v].
    destruct (cvtColor_BGR2YCrCb b g r) as [[y cr] cb].
    reflexivity.
  - change (127 <? 255) with true. cbv iota.
    destruct (cvtColor_BGR2HSV b g r) as [[h s] v].
    destruct (cvtColor_BGR2YCrCb b g r) as [[y cr] cb].
    reflexivity.
Qed.

Lemma valid_pixel_coords_eq (image : Image) :
  valid_pixel_coords image =
  flat_map (fun row =>
    flat_map (fun col => if 127 <? opacity image row col then [(row, col)] else [])
             (seq 0 (width image))) (seq 0 (height image)).
Proof.
  unfold valid_pixel_coords, extract.
  rewrite map_flat_map. apply flat_map_ext. intros row.
  rewrite map_flat_map. apply flat_map_ext. intros col.
  apply extract_pixel_coords.
Qed.

Lemma valid_pixel_coords_In (image : Image) (row col : nat) :
  In (row, col) (valid_pixel_coords image) <->
  (row < height image)%nat /\ (col < width image)%nat /\ 127 < opacity image row col.
Proof.
  rewrite valid_pixel_coords_eq, in_flat_map. split.
  - intros [row' [Hrow H]]. apply in_flat_map in H as [col' [Hcol H]].
    apply in_seq in Hrow, Hcol.
    destruct (Z.ltb_spec 127 (opacity image row' col')) as [Ha|Ha]; [|contradiction].
    destruct H as [H|[]]. inversion H; subst. repeat split; [lia|lia|exact Ha].
  - intros (Hrow & Hcol & Ha). exists row. split; [apply in_seq; lia|].
    apply in_flat_map. exists col. split; [apply in_seq; lia|].
    destruct (Z.ltb_spec 127 (opacity image row col)); [left; reflexivity|lia].
Qed.

Lemma pixels_length (image : Image) :
  length (pixels image) = length (valid_pixel_coords image).
Proof. unfold pixels, valid_pixel_coords. rewrite !length_map. reflexivity. Qed.

Lemma features_length (image : Image) :
  length (features image) = length (valid_pixel_coords image).
Proof. unfold features, valid_pixel_coords. rewrite !length_map. reflexivity. Qed.

End ExtractionFacts.

(** C8.  A position is among the valid pixels exactly when it lies in the
    grid and its opacity exceeds 127; without an opacity plane the opacity
    is 255 and every position of the grid is valid, in row-major order; and
    when no position is valid the program raises [EmptyInputError]. *)
Theorem valid_pixels_by_opacity (L : Libraries) (image : Image) :
  (forall row col,
     In (row, col) (valid_pixel_coords image) <->
     (row < height image)%nat /\ (col < width image)%nat /\ 127 < opacity image row col) /\
  (image_alpha image = None ->
   (forall row col, opacity image row col = 255) /\
   valid_pixel_coords image = all_coords (height image) (width image)) /\
  ((forall row col, (row < height image)%nat -> (col < width image)%nat ->
                    opacity image row col <= 127) ->
   display_skin_analysis image = Raise EmptyInputError).
Proof.
  split; [|split].
  - intros row col. apply valid_pixel_coords_In.
  - intros Hnone. split.
    + intros row col. unfold opacity. rewrite Hnone. reflexivity.
    + rewrite valid_pixel_coords_eq. unfold all_coords, opacity. rewrite Hnone.
      apply flat_map_ext. intros row.
      change (127 <? 255) with true. cbv iota.
      apply flat_map_singleton.
  - intros Hall.
    assert (Hnil : valid_pixel_coords image = []).
    { apply no_element_nil. intros [row col] Hin.
      apply valid_pixel_coords_In in Hin as (Hrow & Hcol & Ha).
      specialize (Hall row col Hrow Hcol). lia. }
    unfold display_skin_analysis.
    rewrite pixels_length, Hnil. reflexivity.
Qed.

Lemma valid_pixels_by_opacity_witness :
  (forall row col, (row < height transparent_image)%nat -> (col < width transparent_image)%nat ->
                   opacity transparent_image row col <= 127) /\
  display_skin_analysis (L := Reference.libraries) transparent_image = Raise EmptyInputError.
Proof.
  assert (H : forall row col, (row < height transparent_image)%nat ->
                              (col < width transparent_image)%nat ->
                              opacity transparent_image row col <= 127)
    by (intros row col _ _; unfold opacity, transparent_image, uniform_image; simpl; lia).
  split; [exact H|].
  exact (proj2 (proj2 (valid_pixels_by_opacity Reference.libraries transparent_image)) H).
Defined.

(** ** The centre patch *)

Lemma In_enumerate_from {A : Type} (l : list A) (a i : nat) (x : A) :
  In (i, x) (combine (seq a (length l)) l) <->
  (a <= i)%nat /\ nth_error l (i - a) = Some x.
Proof.
  revert a. induction l as [|y l IH]; intros a; simpl.
  - split; [contradiction|]. intros [_ H]. destruct (i - a)%nat; discriminate.
  - rewrite IH. split.
    + intros [H|[Hle H]].
      * inversion H; subst. rewrite Nat.sub_diag. split; [lia|reflexivity].
      * split; [lia|]. replace (i - a)%nat with (S (i - S a)) by lia. exact H.
    + intros [Hle H]. destruct (Nat.eq_dec a i) as [->|Hne].
      * rewrite Nat.sub_diag in H. simpl in H. left. congruence.
      * right. split; [lia|].
        replace (i - a)%nat with (S (i - S a)) in H by lia. exact H.
Qed.

Lemma In_enumerate {A : Type} (l : list A) (i : nat) (x : A) :
  In (i, x) (combine (seq 0 (length l)) l) <-> nth_error l i = Some x.
Proof.
  rewrite In_enumerate_from, Nat.sub_0_r. split; [tauto|]. split; [lia|assumption].
Qed.

Lemma in_center_patch_iff (image : Image) (row col : nat) :
  in_center_patch image (row, col) = true <-> in_patch image row col.
Proof.
  unfold in_center_patch, in_patch.
  rewrite andb_true_iff, !Z.ltb_lt. reflexivity.
Qed.

Lemma center_pixels_In {L : Libraries} (image : Image) (idx : nat) :
  In idx (center_pixels image) <->
  exists row col, nth_error (valid_pixel_coords image) idx = Some (row, col)
                  /\ in_patch image row col.
Proof.
  unfold center_pixels. rewrite in_map_iff. split.
  - intros [[i [row col]] [Hi Hin]]. simpl in Hi. subst i.
    apply filter_In in Hin as [Hin Hpatch]. simpl in Hpatch.
    exists row, col. split; [apply In_enumerate; exact Hin|].
    apply in_center_patch_iff; exact Hpatch.
  - intros (row & col & Hnth & Hpatch). exists (idx, (row, col)).
    split; [reflexivity|]. apply filter_In. split.
    + apply In_enumerate; exact Hnth.
    + simpl. apply in_center_patch_iff; exact Hpatch.
Qed.

(** C7 (as amended).  The centre patch is exactly the set of valid pixels
    inside the centred square of half-width [min(width, height) // 4]; and
    when extraction and clustering have succeeded (there is a valid pixel
    and the clustering call returned labels) and no valid pixel lies in the
    square, the program raises [EmptyCenterPatchError]. *)
Theorem center_patch_selection (L : Libraries) (image : Image) :
  (forall idx,
     In idx (center_pixels image) <->
     exists row col, nth_error (valid_pixel_coords image) idx = Some (row, col)
                     /\ in_patch image row col) /\
  (valid_pixel_coords image <> [] ->
   forall labels, KMeans_fit (features image) = Some labels ->
   (forall row col, In (row, col) (valid_pixel_coords image) -> ~ in_patch image row col) ->
   display_skin_analysis image = Raise EmptyCenterPatchError).
Proof.
  split; [apply center_pixels_In|].
  intros Hvalid labels Hfit Hnone.
  assert (Hcenter : center_pixels image = []).
  { apply no_element_nil. intros idx Hin.
    apply center_pixels_In in Hin as (row & col & Hnth & Hpatch).
    apply (Hnone row col); [|exact Hpatch].
    apply nth_error_In with idx; exact Hnth. }
  unfold display_skin_analysis.
  rewrite pixels_length.
  destruct (valid_pixel_coords image) as [|c cs] eqn:Hcoords; [contradiction|].
  simpl length. cbv iota beta.
  change (Nat.eqb (S (length cs)) 0) with false. cbv iota.
  rewrite Hfit. simpl bind. rewrite Hcenter. reflexivity.
Qed.

Lemma center_patch_selection_witness :
  display_skin_analysis (L := Reference.libraries) small_image = Raise EmptyCenterPatchError.
Proof.
  refine (proj2 (center_patch_selection Reference.libraries small_image) _
            [0; 1; 2; 3; 4; 0; 1; 2; 3]%nat _ _).
  - vm_compute. discriminate.
  - vm_compute. reflexivity.
  - intros row col _ [H _]. unfold small_image, uniform_image in H. simpl in H.
    change (Z.min 3 3 / 4) with 0 in H. lia.
Defined.

(** The claim without the proviso fails: with no valid pixel at all the
    program raises [EmptyInputError], and with four valid pixels, none of
    them in the square, the clustering call raises first. *)
Lemma center_patch_error_counterexample :
  (forall row col, In (row, col) (valid_pixel_coords (L := Reference.libraries) transparent_image) ->
                   ~ in_patch transparent_image row col) /\
  display_skin_analysis (L := Reference.libraries) transparent_image = Raise EmptyInputError /\
  (forall row col, In (row, col) (valid_pixel_coords (L := Reference.libraries) tiny_image) ->
                   ~ in_patch tiny_image row col) /\
  display_skin_analysis (L := Reference.libraries) tiny_image = Raise InsufficientDataError.
Proof.
  split; [|split; [|split]].
  - intros row col Hin. vm_compute in Hin. contradiction.
  - vm_compute. reflexivity.
  - intros row col _ [H _]. unfold tiny_image, uniform_image in H. simpl in H.
    change (Z.min 2 2 / 4) with 0 in H. lia.
  - vm_compute. reflexivity.
Qed.

(** ** The clustering stage *)

Lemma group_In (labels : list nat) (k i : nat) :
  In i (group labels k) <-> (i < length labels)%nat /\ nth i labels 0%nat = k.
Proof.
  unfold group. rewrite filter_In, in_seq, Nat.eqb_eq. split; intros [H1 H2]; (split; [lia|exact H2]).
Qed.

Lemma Reference_fit_contract : PixelClusterer_contract Reference.fit.
Proof.
  intros fs. unfold Reference.fit. split.
  - intros Hlt. apply Nat.ltb_lt in Hlt. rewrite Hlt. reflexivity.
  - intros Hge. destruct (Nat.ltb_spec (length fs) 5) as [Hlt|_]; [lia|].
    eexists. split; [reflexivity|]. split.
    + rewrite length_map, length_seq. reflexivity.
    + apply Forall_forall. intros l Hl. apply in_map_iff in Hl as [i [<- _]].
      apply Nat.mod_upper_bound. discriminate.
Qed.

(** C3.  With a clusterer that honours the contract of the specification:
    an image with between one and four valid pixels makes the program raise
    [InsufficientDataError]; with five or more, clustering returns one label
    per feature vector and the five groups (some possibly empty) partition
    the vectors, every position lying in exactly one of them. *)
Theorem clustering_stage (L : Libraries) (image : Image) :
  PixelClusterer_contract KMeans_fit ->
  ((1 <= length (valid_pixel_coords image) < 5)%nat ->
   display_skin_analysis image = Raise InsufficientDataError) /\
  ((5 <= length (valid_pixel_coords image))%nat ->
   exists labels,
     KMeans_fit (features image) = Some labels
     /\ length labels = length (valid_pixel_coords image)
     /\ forall i, (i < length (valid_pixel_coords image))%nat ->
                  exists! k, (k < 5)%nat /\ In i (group labels k)).
Proof.
  intros Hcontract. destruct (Hcontract (features image)) as [Hfew Hmany].
  rewrite features_length in Hfew, Hmany. split.
  - intros [Hlo Hhi]. unfold display_skin_analysis. rewrite pixels_length.
    destruct (Nat.eqb_spec (length (valid_pixel_coords image)) 0) as [H0|_]; [lia|].
    rewrite (Hfew Hhi). reflexivity.
  - intros Hge. destruct (Hmany Hge) as (labels & Hfit & Hlen & Hrange).
    exists labels. split; [exact Hfit|]. split; [exact Hlen|].
    intros i Hi. exists (nth i labels 0%nat). split.
    + split.
      * rewrite Forall_forall in Hrange. apply Hrange. apply nth_In. lia.
      * apply group_In. split; [lia|reflexivity].
    + intros k [_ Hk]. apply group_In in Hk as [_ Hk]. exact Hk.
Qed.

Lemma clustering_stage_witness :
  display_skin_analysis (L := Reference.libraries) tiny_image = Raise InsufficientDataError.
Proof.
  refine (proj1 (clustering_stage Reference.libraries tiny_image Reference_fit_contract) _).
  vm_compute. lia.
Defined.


(** ** The order of binary64 *)

Lemma SFcompare_rank (f1 f2 : spec_float) :
  f1 <> S754_nan -> f2 <> S754_nan ->
  SFcompare f1 f2 = Some (lex_compare (rank f1) (rank f2)).
Proof.
  intros H1 H2.
  destruct f1 as [s1|s1| |s1 m1 e1], f2 as [s2|s2| |s2 m2 e2];
    try congruence; try (destruct s1; reflexivity); try (destruct s2; reflexivity);
    try (destruct s1, s2; reflexivity).
  destruct s1, s2; cbn [SFcompare rank lex_compare]; try reflexivity.
  change (-1 ?= -1) with Eq. cbv iota.
  rewrite Z.compare_opp, (Z.compare_antisym e1 e2).
  destruct (e1 ?= e2); reflexivity.
Qed.

Lemma lex_compare_refl (p : Z * Z * Z) : lex_compare p p = Eq.
Proof. destruct p as [[a b] c]. simpl. rewrite !Z.compare_refl. reflexivity. Qed.

Lemma lex_compare_Lt (a1 b1 c1 a2 b2 c2 : Z) :
  lex_compare (a1, b1, c1) (a2, b2, c2) = Lt <->
  a1 < a2 \/ (a1 = a2 /\ (b1 < b2 \/ (b1 = b2 /\ c1 < c2))).
Proof.
  simpl.
  destruct (Z.compare_spec a1 a2), (Z.compare_spec b1 b2), (Z.compare_spec c1 c2);
    split; intros Hcmp; try discriminate; try reflexivity; lia.
Qed.

Lemma lex_compare_Gt (a1 b1 c1 a2 b2 c2 : Z) :
  lex_compare (a1, b1, c1) (a2, b2, c2) = Gt <->
  a2 < a1 \/ (a1 = a2 /\ (b2 < b1 \/ (b1 = b2 /\ c2 < c1))).
Proof.
  simpl.
  destruct (Z.compare_spec a1 a2), (Z.compare_spec b1 b2), (Z.compare_spec c1 c2);
    split; intros Hcmp; try discriminate; try reflexivity; lia.
Qed.

Lemma lex_compare_Eq (p q : Z * Z * Z) : lex_compare p q = Eq <-> p = q.
Proof.
  destruct p as [[a1 b1] c1], q as [[a2 b2] c2]. simpl.
  destruct (Z.compare_spec a1 a2), (Z.compare_spec b1 b2), (Z.compare_spec c1 c2);
    split; intros Hcmp; try discriminate; try reflexivity;
    try (inversion Hcmp; lia); subst; reflexivity.
Qed.

Lemma is_nan_spec (x : float) : PrimFloat.is_nan x = false <-> Prim2SF x <> S754_nan.
Proof.
  unfold PrimFloat.is_nan. rewrite FloatAxioms.eqb_spec. unfold SFeqb. split.
  - intros H Hnan. rewrite Hnan in H. discriminate H.
  - intros H. rewrite SFcompare_rank by assumption.
    rewrite lex_compare_refl. reflexivity.
Qed.

Section FloatOrder.
Variables x y : float.
Hypothesis Hx : PrimFloat.is_nan x = false.
Hypothesis Hy : PrimFloat.is_nan y = false.

Lemma compare_place :
  SFcompare (Prim2SF x) (Prim2SF y) = Some (lex_compare (place x) (place y)).
Proof. apply SFcompare_rank; apply is_nan_spec; assumption. Qed.

Lemma ltb_place : (x <? y)%float = true <-> lex_lt (place x) (place y).
Proof.
  rewrite FloatAxioms.ltb_spec. unfold SFltb, lex_lt. rewrite compare_place.
  destruct (lex_compare (place x) (place y)); split; congruence.
Qed.

Lemma leb_place : (x <=? y)%float = true <-> lex_le (place x) (place y).
Proof.
  rewrite FloatAxioms.leb_spec. unfold SFleb, lex_le. rewrite compare_place.
  destruct (lex_compare (place x) (place y)); split; congruence.
Qed.

Lemma eqb_place : (x =? y)%float = true <-> place x = place y.
Proof.
  rewrite FloatAxioms.eqb_spec. unfold SFeqb. rewrite compare_place.
  rewrite <- lex_compare_Eq.
  destruct (lex_compare (place x) (place y)); split; congruence.
Qed.

End FloatOrder.

Lemma lex_le_not_lt (p q : Z * Z * Z) : lex_le p q <-> ~ lex_lt q p.
Proof.
  destruct p as [[a1 b1] c1], q as [[a2 b2] c2]. unfold lex_le, lex_lt.
  rewrite lex_compare_Gt, lex_compare_Lt. lia.
Qed.

Lemma lex_le_trans (p q r : Z * Z * Z) : lex_le p q -> lex_le q r -> lex_le p r.
Proof.
  destruct p as [[a1 b1] c1], q as [[a2 b2] c2], r as [[a3 b3] c3]. unfold lex_le.
  rewrite !lex_compare_Gt. lia.
Qed.

Lemma lex_compare_opp (a1 b1 c1 a2 b2 c2 : Z) :
  lex_compare (- a1, - b1, - c1) (- a2, - b2, - c2) = lex_compare (a2, b2, c2) (a1, b1, c1).
Proof. simpl. rewrite !Z.compare_opp. reflexivity. Qed.

Lemma rank_opp (f : spec_float) :
  rank (SFopp f) = (- fst (fst (rank f)), - snd (fst (rank f)), - snd (rank f)).
Proof.
  destruct f as [s|s| |s m e]; try destruct s; cbn [SFopp negb rank fst snd];
    rewrite ?Z.opp_involutive; reflexivity.
Qed.

Lemma SFcompare_nan_r (f : spec_float) : SFcompare f S754_nan = None.
Proof. destruct f; reflexivity. Qed.

Lemma SFopp_nan (f : spec_float) : SFopp f = S754_nan <-> f = S754_nan.
Proof. destruct f; simpl; split; congruence. Qed.

Lemma SFcompare_opp (f1 f2 : spec_float) :
  SFcompare (SFopp f1) (SFopp f2) = SFcompare f2 f1.
Proof.
  destruct f1 as [s1|s1| |s1 m1 e1] eqn:E1; try (rewrite SFcompare_nan_r; reflexivity);
    (destruct f2 as [s2|s2| |s2 m2 e2] eqn:E2; try (rewrite SFcompare_nan_r; reflexivity);
     rewrite <- E1, <- E2;
     rewrite !SFcompare_rank by (rewrite ?SFopp_nan; subst; discriminate);
     rewrite !rank_opp;
     destruct (rank f1) as [[a1 b1] c1], (rank f2) as [[a2 b2] c2];
     cbn [fst snd]; rewrite lex_compare_opp; reflexivity).
Qed.


Lemma leb_opp (x y : float) : (- x <=? - y)%float = (y <=? x)%float.
Proof.
  rewrite !FloatAxioms.leb_spec, !FloatAxioms.opp_spec. unfold SFleb.
  rewrite SFcompare_opp. reflexivity.
Qed.

Lemma is_nan_opp (x : float) : PrimFloat.is_nan (- x) = PrimFloat.is_nan x.
Proof.
  unfold PrimFloat.is_nan. rewrite !FloatAxioms.eqb_spec, !FloatAxioms.opp_spec. unfold SFeqb.
  rewrite SFcompare_opp. reflexivity.
Qed.

(** Without nan, [<=] is the negation of the converse [<]. *)
Lemma leb_not_ltb (x y : float) :
  PrimFloat.is_nan x = false -> PrimFloat.is_nan y = false ->
  (x <=? y)%float = negb (y <? x)%float.
Proof.
  intros Hx Hy. apply eq_true_iff_eq.
  rewrite negb_true_iff, <- not_true_iff_false.
  rewrite leb_place, ltb_place by assumption.
  apply lex_le_not_lt.
Qed.

Lemma ltb_leb (x y : float) : (x <? y)%float = true -> (x <=? y)%float = true.
Proof.
  rewrite FloatAxioms.ltb_spec, FloatAxioms.leb_spec. unfold SFltb, SFleb.
  destruct (SFcompare (Prim2SF x) (Prim2SF y)) as [[| |]|]; congruence.
Qed.

Lemma leb_trans (x y z : float) :
  PrimFloat.is_nan x = false -> PrimFloat.is_nan y = false -> PrimFloat.is_nan z = false ->
  (x <=? y)%float = true -> (y <=? z)%float = true -> (x <=? z)%float = true.
Proof.
  intros Hx Hy Hz. rewrite !leb_place by assumption. apply lex_le_trans.
Qed.

Lemma leb_refl (x : float) : PrimFloat.is_nan x = false -> (x <=? x)%float = true.
Proof.
  intros Hx. rewrite leb_place by assumption. unfold lex_le.
  rewrite lex_compare_refl. discriminate.
Qed.

(** Equal floats are not below one another; a float that equals another is
    not nan. *)
Lemma eqb_not_nan (x y : float) :
  (x =? y)%float = true -> PrimFloat.is_nan x = false /\ PrimFloat.is_nan y = false.
Proof.
  rewrite FloatAxioms.eqb_spec, !is_nan_spec. unfold SFeqb. intros H.
  split; intros Hnan; rewrite Hnan in H; [|rewrite SFcompare_nan_r in H]; discriminate H.
Qed.

Lemma eqb_not_ltb (x y : float) :
  (x =? y)%float = true -> (x <? y)%float = false /\ (y <? x)%float = false.
Proof.
  intros H. destruct (eqb_not_nan x y H) as [Hx Hy].
  apply eqb_place in H; [|assumption|assumption].
  split; apply not_true_iff_false; rewrite ltb_place by assumption;
    unfold lex_lt; [rewrite H | rewrite <- H]; rewrite lex_compare_refl; discriminate.
Qed.

(** ** Sorting *)

Section SortFacts.
Context {A : Type} (key : A -> float).

Lemma insert_by_perm (x : A) (l : list A) :
  Permutation (np.insert_by key x l) (x :: l).
Proof.
  induction l as [|y l IH]; simpl; [reflexivity|].
  destruct (key y <? key x)%float; [|reflexivity].
  rewrite IH. apply perm_swap.
Qed.

Lemma sort_by_perm (l : list A) : Permutation (np.sort_by key l) l.
Proof.
  induction l as [|x l IH]; simpl; [reflexivity|].
  unfold np.sort_by in IH. rewrite insert_by_perm, IH. reflexivity.
Qed.

Lemma sort_by_In (l : list A) (x : A) : In x (np.sort_by key l) <-> In x l.
Proof.
  split; apply Permutation_in;
    [apply sort_by_perm | symmetry; apply sort_by_perm].
Qed.

Lemma sort_by_nil_inv (l : list A) : np.sort_by key l = [] -> l = [].
Proof.
  intros H. apply Permutation_nil. rewrite <- H. apply sort_by_perm.
Qed.

(** Keys without nan are sorted in ascending order. *)
Lemma insert_by_sorted (x : A) (l : list A) :
  PrimFloat.is_nan (key x) = false ->
  Forall (fun a => PrimFloat.is_nan (key a) = false) l ->
  StronglySorted (fun a b => (key a <=? key b)%float = true) l ->
  StronglySorted (fun a b => (key a <=? key b)%float = true) (np.insert_by key x l).
Proof.
  intros Hx Hnan Hsorted. induction Hsorted as [|y l Hsorted IH Hall]; simpl.
  - constructor; constructor.
  - inversion Hnan as [|? ? Hy Hnan']; subst.
    destruct (key y <? key x)%float eqn:E.
    + constructor; [apply IH; exact Hnan'|].
      apply Forall_forall. intros z Hz.
      apply (Permutation_in _ (insert_by_perm x l)) in Hz.
      destruct Hz as [<-|Hz]; [apply ltb_leb; exact E|].
      rewrite Forall_forall in Hall. apply Hall; exact Hz.
    + assert (Hxy : (key x <=? key y)%float = true)
        by (rewrite leb_not_ltb, E by assumption; reflexivity).
      constructor.
      * constructor; assumption.
      * constructor; [exact Hxy|].
        rewrite Forall_forall in Hall, Hnan' |- *. intros z Hz.
        apply leb_trans with (key y); auto.
Qed.

Lemma sort_by_sorted (l : list A) :
  Forall (fun a => PrimFloat.is_nan (key a) = false) l ->
  StronglySorted (fun a b => (key a <=? key b)%float = true) (np.sort_by key l).
Proof.
  induction 1 as [|x l Hx Hnan IH]; simpl; [constructor|].
  apply insert_by_sorted; [exact Hx| |exact IH].
  apply Forall_forall. intros z Hz. apply (proj1 (sort_by_In l z)) in Hz.
  rewrite Forall_forall in Hnan. apply Hnan; exact Hz.
Qed.









End SortFacts.
(** ** Boolean masks and cluster membership *)

Lemma boolean_index_length {A : Type} (a : list A) (mask : list bool) (r : list A) :
  np.boolean_index a mask = Ok r ->
  length a = length mask /\ r = map fst (filter snd (combine a mask)).
Proof.
  unfold np.boolean_index. destruct (Nat.eqb_spec (length a) (length mask)) as [Hlen|_].
  - intros H. inversion H. split; [exact Hlen|reflexivity].
  - discriminate.
Qed.

Lemma boolean_index_Ok {A : Type} (a : list A) (mask : list bool) :
  length a = length mask ->
  np.boolean_index a mask = Ok (map fst (filter snd (combine a mask))).
Proof.
  intros Hlen. unfold np.boolean_index. rewrite Hlen, Nat.eqb_refl. reflexivity.
Qed.

(** Indexing with a mask computed from a predicate is filtering. *)
Lemma mask_filter {A : Type} (f : A -> bool) (a : list A) :
  map fst (filter snd (combine a (map f a))) = filter f a.
Proof.
  induction a as [|x a IH]; simpl; [reflexivity|].
  destruct (f x); simpl; rewrite IH; reflexivity.
Qed.

Lemma mask_members (pixels : list RGB) (labels : list nat) (i : nat) :
  map fst (filter snd (combine pixels (map (fun l => Nat.eqb l i) labels)))
  = members pixels labels i.
Proof.
  unfold members. revert labels.
  induction pixels as [|p pixels IH]; intros [|l labels]; simpl; try reflexivity.
  destruct (Nat.eqb l i); simpl; rewrite IH; reflexivity.
Qed.

Lemma members_nonempty (pixels : list RGB) (labels : list nat) (i : nat) :
  length pixels = length labels -> In i labels -> members pixels labels i <> [].
Proof.
  unfold members. revert labels.
  induction pixels as [|p pixels IH]; intros [|l labels] Hlen Hin; simpl in *;
    try contradiction; try discriminate.
  destruct (Nat.eqb_spec l i) as [_|Hne]; simpl; [discriminate|].
  apply IH; [lia|]. destruct Hin as [Heq|Hin]; [contradiction|exact Hin].
Qed.

Lemma members_label (pixels : list RGB) (labels : list nat) (i : nat) :
  members pixels labels i <> [] -> In i labels.
Proof.
  unfold members. revert labels.
  induction pixels as [|p pixels IH]; intros [|l labels] H; simpl in *;
    try (exfalso; apply H; reflexivity).
  destruct (Nat.eqb_spec l i) as [->|Hne]; [left; reflexivity|].
  right. apply IH. exact H.
Qed.

Lemma take_In {A : Type} (a : list A) (indices : list nat) (r : list A) :
  np.take a indices = Ok r -> forall x, In x r -> In x a.
Proof.
  revert r. induction indices as [|i rest IH]; simpl; intros r H x Hin.
  - inversion H; subst. contradiction.
  - destruct (nth_error a i) as [y|] eqn:Hnth; [|discriminate].
    destruct (np.take a rest) as [xs|e]; simpl in H; [|discriminate].
    inversion H; subst. destruct Hin as [<-|Hin].
    + apply nth_error_In with i; exact Hnth.
    + apply (IH xs eq_refl); exact Hin.
Qed.

Lemma take_length {A : Type} (a : list A) (indices : list nat) (r : list A) :
  np.take a indices = Ok r -> length r = length indices.
Proof.
  revert r. induction indices as [|i rest IH]; simpl; intros r H.
  - inversion H; reflexivity.
  - destruct (nth_error a i); [|discriminate].
    destruct (np.take a rest) as [xs|e]; simpl in H; [|discriminate].
    inversion H; subst. simpl. rewrite (IH xs eq_refl). reflexivity.
Qed.


(** ** [int] of a float *)

Lemma truncate_integer (z : Z) : truncate (inject_Z z) = z.
Proof. unfold truncate. simpl. apply Z.quot_1_r. Qed.

Lemma truncate_opp (q : Q) : truncate (- q) = - truncate q.
Proof.
  unfold truncate. destruct q as [a b]. simpl.
  apply Z.quot_opp_l. discriminate.
Qed.

(** On a finite float [int] returns the integer part of its exact value;
    on the others it raises. *)
Lemma int_Ok (x : float) :
  is_finite x = true -> np.int x = Ok (truncate (float_value x)).
Proof.
  unfold is_finite, np.int, float_value.
  destruct (Prim2SF x) as [s|s| |s m e]; try discriminate; intros _.
  - reflexivity.
  - f_equal.
    assert (H : (if 0 <=? e then Z.shiftl (Z.pos m) e else Z.shiftr (Z.pos m) (- e))
                = truncate (if 0 <=? e then inject_Z (Z.pos m * 2 ^ e)
                            else Qmake (Z.pos m) (Z.to_pos (2 ^ (- e))))).
    { destruct (Z.leb_spec 0 e) as [He|He].
      - rewrite truncate_integer. apply Z.shiftl_mul_pow2. exact He.
      - unfold truncate. cbn [Qnum Qden].
        rewrite Z2Pos.id by (apply Z.pow_pos_nonneg; lia).
        rewrite Z.quot_div_nonneg by (try apply Z.pow_pos_nonneg; lia).
        apply Z.shiftr_div_pow2. lia. }
    destruct s; [rewrite truncate_opp|]; rewrite H; reflexivity.
Qed.

Lemma int_Raise (x : float) (e : error) :
  np.int x = Raise e -> is_finite x = false /\ conversion_error e.
Proof.
  unfold is_finite, np.int, conversion_error.
  destruct (Prim2SF x) as [s|s| |s m e']; try discriminate;
    intros H; inversion H; auto.
Qed.

Lemma int_finite (x : float) (z : Z) : np.int x = Ok z -> is_finite x = true.
Proof.
  unfold is_finite, np.int.
  destruct (Prim2SF x) as [s|s| |s m e']; try discriminate; reflexivity.
Qed.

(** Truncation rounds towards zero. *)
Lemma truncate_nonneg (q : Q) :
  (0 <= q)%Q -> (inject_Z (truncate q) <= q < inject_Z (truncate q) + 1)%Q.
Proof.
  intros Hq.
  assert (Hfloor : truncate q = Qfloor q).
  { destruct q as [a b]. unfold truncate, Qfloor. simpl.
    apply Z.quot_div_nonneg; [|reflexivity].
    unfold Qle in Hq. simpl in Hq. lia. }
  rewrite Hfloor. split; [apply Qfloor_le|].
  pose proof (Qlt_floor q) as Hlt. rewrite inject_Z_plus in Hlt. exact Hlt.
Qed.

Lemma truncate_nonpos (q : Q) :
  (q <= 0)%Q -> (inject_Z (truncate q) - 1 < q <= inject_Z (truncate q))%Q.
Proof.
  intros Hq.
  assert (H : (0 <= - q)%Q) by lra.
  apply truncate_nonneg in H. rewrite truncate_opp, inject_Z_opp in H. lra.
Qed.

Section ConversionFacts.
Context {L : Libraries}.

Lemma to_8bit_Ok (c : RGB) :
  convertible c = true ->
  to_8bit c = Ok (truncate (float_value (np.red c * 255)),
                  truncate (float_value (np.green c * 255)),
                  truncate (float_value (np.blue c * 255))).
Proof.
  unfold convertible, to_8bit. intros H.
  apply andb_prop in H as [H Hb]. apply andb_prop in H as [Hr Hg].
  rewrite (int_Ok _ Hr), (int_Ok _ Hg), (int_Ok _ Hb). reflexivity.
Qed.

Lemma to_8bit_convertible (c : RGB) (rgb : Z * Z * Z) :
  to_8bit c = Ok rgb -> convertible c = true.
Proof.
  unfold convertible, to_8bit. intros H.
  destruct (np.int (np.red c * 255)) as [r|e] eqn:Hr; simpl in H; [|discriminate].
  destruct (np.int (np.green c * 255)) as [g|e] eqn:Hg; simpl in H; [|discriminate].
  destruct (np.int (np.blue c * 255)) as [b|e] eqn:Hb; simpl in H; [|discriminate].
  rewrite (int_finite _ _ Hr), (int_finite _ _ Hg), (int_finite _ _ Hb). reflexivity.
Qed.

Lemma to_8bit_Raise (c : RGB) (e : error) :
  to_8bit c = Raise e -> convertible c = false /\ conversion_error e.
Proof.
  unfold convertible, to_8bit. intros H.
  destruct (np.int (np.red c * 255)) as [r|e1] eqn:Hr; simpl in H.
  - destruct (np.int (np.green c * 255)) as [g|e2] eqn:Hg; simpl in H.
    + destruct (np.int (np.blue c * 255)) as [b|e3] eqn:Hb; simpl in H; [discriminate|].
      inversion H; subst. apply int_Raise in Hb as [Hb He]. rewrite Hb.
      split; [apply andb_false_r|exact He].
    + inversion H; subst. apply int_Raise in Hg as [Hg He]. rewrite Hg.
      split; [rewrite andb_false_r; reflexivity|exact He].
  - inversion H; subst. apply int_Raise in Hr as [Hr He]. rewrite Hr.
    split; [reflexivity|exact He].
Qed.

End ConversionFacts.

(** ** The list of clusters *)

Lemma boolean_index_Raise {A : Type} (a : list A) (mask : list bool) (e : error) :
  np.boolean_index a mask = Raise e -> e = IndexError /\ length a <> length mask.
Proof.
  unfold np.boolean_index. destruct (Nat.eqb_spec (length a) (length mask)); [discriminate|].
  intros H. inversion H. split; [reflexivity|assumption].
Qed.

Lemma take_Raise {A : Type} (a : list A) (indices : list nat) (e : error) :
  np.take a indices = Raise e -> e = IndexError.
Proof.
  induction indices as [|i rest IH]; simpl; [discriminate|].
  destruct (nth_error a i); [|intros H; inversion H; reflexivity].
  destruct (np.take a rest) as [xs|e']; simpl; [discriminate|].
  intros H. inversion H; subst. apply IH. reflexivity.
Qed.

Section ClusterFacts.
Context {L : Libraries}.

Lemma cluster_entry_Some (pixels : list RGB) (labels : list nat) (i : nat) (c : Cluster) :
  cluster_entry pixels labels i = Ok (Some c) ->
  let m := members pixels labels i in
  cluster_id c = i /\ m <> [] /\ size c = length m
  /\ median_color c = np_median m
  /\ brightness c = np_mean (median_color c)
  /\ exists rgb, to_8bit (median_color c) = Ok rgb
                 /\ score c = expected_score pixels m (is_skin_of rgb).
Proof.
  unfold cluster_entry. intros H.
  destruct (np.boolean_index pixels _) as [cp|e] eqn:Hidx; simpl in H; [|discriminate].
  apply boolean_index_length in Hidx as [_ Hcp]. rewrite mask_members in Hcp. subst cp.
  destruct (Nat.eqb_spec (length (members pixels labels i)) 0) as [_|Hne]; [discriminate|].
  destruct (to_8bit (np_median (members pixels labels i))) as [rgb|e] eqn:Hrgb;
    simpl in H; [|discriminate].
  inversion H; subst c; clear H.
  cbn [cluster_id score brightness size median_color]. cbv zeta.
  split; [reflexivity|]. split.
  { intros Hnil. rewrite Hnil in Hne. apply Hne. reflexivity. }
  do 3 (split; [reflexivity|]).
  exists rgb. split; [exact Hrgb|].
  unfold expected_score. destruct (is_skin_of rgb); reflexivity.
Qed.

(** The three ways the body of the first loop ends. *)
Lemma cluster_entry_outcome (pixels : list RGB) (labels : list nat) (i : nat) :
  length pixels = length labels ->
  let m := members pixels labels i in
  (m = [] /\ cluster_entry pixels labels i = Ok None)
  \/ (m <> [] /\ exists c, cluster_entry pixels labels i = Ok (Some c))
  \/ (m <> [] /\ exists e, cluster_entry pixels labels i = Raise e
                           /\ to_8bit (np_median m) = Raise e).
Proof.
  intros Hlen m. unfold cluster_entry.
  rewrite boolean_index_Ok by (rewrite length_map; exact Hlen).
  rewrite mask_members. simpl bind. fold m.
  destruct (Nat.eqb_spec (length m) 0) as [H0|Hne].
  - left. split; [apply length_zero_iff_nil; exact H0|reflexivity].
  - assert (Hm : m <> []) by (intros Hnil; rewrite Hnil in Hne; apply Hne; reflexivity).
    destruct (to_8bit (np_median m)) as [rgb|e]; simpl.
    + right. left. split; [exact Hm|]. eexists. reflexivity.
    + right. right. split; [exact Hm|]. exists e. split; reflexivity.
Qed.

Lemma cluster_entry_mismatch (pixels : list RGB) (labels : list nat) (i : nat) :
  length pixels <> length labels -> cluster_entry pixels labels i = Raise IndexError.
Proof.
  intros Hlen. unfold cluster_entry, np.boolean_index. rewrite length_map.
  destruct (Nat.eqb_spec (length pixels) (length labels)); [contradiction|reflexivity].
Qed.

Lemma cluster_entry_Raise (pixels : list RGB) (labels : list nat) (i : nat) (e : error) :
  cluster_entry pixels labels i = Raise e ->
  (e = IndexError /\ length pixels <> length labels)
  \/ (conversion_error e /\ length pixels = length labels
      /\ members pixels labels i <> []
      /\ convertible (np_median (members pixels labels i)) = false).
Proof.
  intros H.
  destruct (Nat.eq_dec (length pixels) (length labels)) as [Hlen|Hlen].
  - right. destruct (cluster_entry_outcome pixels labels i Hlen)
      as [[_ H']|[[_ [c H']]|[Hm [e' [H' Hconv]]]]]; try congruence.
    rewrite H in H'. inversion H'; subst e'.
    apply to_8bit_Raise in Hconv as [Hconv He]. auto.
  - left. rewrite cluster_entry_mismatch in H by exact Hlen.
    inversion H. auto.
Qed.

Lemma collect_clusters_In (pixels : list RGB) (labels ids : list nat) (cs : list Cluster) :
  collect_clusters pixels labels ids = Ok cs ->
  forall c, In c cs <-> exists i, In i ids /\ cluster_entry pixels labels i = Ok (Some c).
Proof.
  revert cs. induction ids as [|i rest IH]; simpl; intros cs H c.
  - inversion H; subst. split; [contradiction|]. intros (j & [] & _).
  - destruct (cluster_entry pixels labels i) as [entry|e] eqn:He; simpl in H; [|discriminate].
    destruct (collect_clusters pixels labels rest) as [cs'|e]; simpl in H; [|discriminate].
    specialize (IH cs' eq_refl c). inversion H; subst cs; clear H. split.
    + intros Hin. destruct entry as [c0|].
      * destruct Hin as [<-|Hin]; [exists i; split; [left; reflexivity|exact He]|].
        apply IH in Hin as (j & Hj & Hc). exists j. split; [right; exact Hj|exact Hc].
      * apply IH in Hin as (j & Hj & Hc). exists j. split; [right; exact Hj|exact Hc].
    + intros (j & [<-|Hj] & Hc).
      * rewrite He in Hc. inversion Hc; subst. left. reflexivity.
      * assert (Hin : In c cs') by (apply IH; exists j; split; assumption).
        destruct entry; [right|]; exact Hin.
Qed.

(** The first loop raises what one of its rounds raises. *)
Lemma collect_clusters_Raise (pixels : list RGB) (labels ids : list nat) (e : error) :
  collect_clusters pixels labels ids = Raise e ->
  exists i, In i ids /\ cluster_entry pixels labels i = Raise e.
Proof.
  induction ids as [|i rest IH]; simpl; intros H; [discriminate|].
  destruct (cluster_entry pixels labels i) as [entry|e0] eqn:He; simpl in H.
  - destruct (collect_clusters pixels labels rest) as [cs|e1]; simpl in H; [discriminate|].
    inversion H; subst. destruct (IH eq_refl) as (j & Hj & Hr).
    exists j. split; [right; exact Hj|exact Hr].
  - inversion H; subst. exists i. split; [left; reflexivity|exact He].
Qed.

Lemma collect_clusters_total (pixels : list RGB) (labels ids : list nat) :
  length pixels = length labels ->
  (forall i, In i ids -> members pixels labels i <> [] ->
             convertible (np_median (members pixels labels i)) = true) ->
  exists cs, collect_clusters pixels labels ids = Ok cs.
Proof.
  intros Hlen Hconv.
  destruct (collect_clusters pixels labels ids) as [cs|e] eqn:H; [exists cs; reflexivity|].
  apply collect_clusters_Raise in H as (i & Hi & Hr).
  apply cluster_entry_Raise in Hr as [[_ Hne]|(_ & _ & Hm & Hc)]; [contradiction|].
  rewrite (Hconv i Hi Hm) in Hc. discriminate.
Qed.

(** Every represented cluster is collected. *)
Lemma collect_clusters_complete (pixels : list RGB) (labels ids : list nat) (cs : list Cluster)
  (i : nat) :
  length pixels = length labels ->
  collect_clusters pixels labels ids = Ok cs ->
  In i ids -> members pixels labels i <> [] ->
  exists c, In c cs /\ cluster_id c = i.
Proof.
  intros Hlen Hcs Hi Hm.
  assert (Hentry : exists c, cluster_entry pixels labels i = Ok (Some c)).
  { destruct (cluster_entry_outcome pixels labels i Hlen)
      as [[Hnil _]|[[_ Hc]|[_ [e [Hr _]]]]]; [contradiction|exact Hc|].
    exfalso. revert Hcs Hi Hr. clear. revert cs.
    induction ids as [|j rest IH]; simpl; intros cs Hcs Hi Hr; [contradiction|].
    destruct (cluster_entry pixels labels j) as [entry|e0] eqn:He; simpl in Hcs; [|discriminate].
    destruct (collect_clusters pixels labels rest) as [cs'|e1]; simpl in Hcs; [|discriminate].
    destruct Hi as [->|Hi]; [congruence|].
    apply (IH cs' eq_refl Hi Hr). }
  destruct Hentry as [c Hc]. exists c. split.
  - apply (collect_clusters_In _ _ _ _ Hcs). exists i. split; assumption.
  - apply cluster_entry_Some in Hc as [Hid _]. exact Hid.
Qed.


Lemma seq_increasing (a n : nat) : StronglySorted lt (seq a n).
Proof.
  revert a. induction n as [|n IH]; intros a; simpl; constructor.
  - apply IH.
  - apply Forall_forall. intros x Hx. apply in_seq in Hx. lia.
Qed.

(** *** The second loop *)


(** A cluster whose median colour converts is tested without exception. *)
Lemma meets_minimum_criteria_Ok (pixels : list RGB) (c : Cluster) (rgb : Z * Z * Z) :
  to_8bit (median_color c) = Ok rgb ->
  exists accepted, meets_minimum_criteria pixels c = Ok accepted.
Proof.
  intros Hrgb. unfold meets_minimum_criteria. rewrite Hrgb. simpl.
  destruct (_ && _); eexists; reflexivity.
Qed.

Lemma first_acceptable_Some (pixels : list RGB) (cs : list Cluster) (id : nat) :
  first_acceptable pixels cs = Ok (Some id) ->
  exists before c after,
    cs = before ++ c :: after /\ cluster_id c = id
    /\ meets_minimum_criteria pixels c = Ok true
    /\ Forall (fun c' => meets_minimum_criteria pixels c' = Ok false) before.
Proof.
  induction cs as [|c cs IH]; simpl; intros H; [discriminate|].
  destruct (meets_minimum_criteria pixels c) as [[|]|e] eqn:Hc; simpl in H; [| |discriminate].
  - inversion H; subst. exists [], c, cs. repeat split; [exact Hc|constructor].
  - destruct (IH H) as (before & c' & after & -> & Hid & Hc' & Hbefore).
    exists (c :: before), c', after. repeat split; try assumption.
    constructor; assumption.
Qed.

Lemma first_acceptable_None (pixels : list RGB) (cs : list Cluster) :
  first_acceptable pixels cs = Ok None ->
  Forall (fun c => meets_minimum_criteria pixels c = Ok false) cs.
Proof.
  induction cs as [|c cs IH]; simpl; intros H; [constructor|].
  destruct (meets_minimum_criteria pixels c) as [[|]|e] eqn:Hc; simpl in H; try discriminate.
  constructor; [exact Hc|apply IH; exact H].
Qed.

Lemma first_acceptable_total (pixels : list RGB) (cs : list Cluster) :
  Forall (fun c => exists rgb, to_8bit (median_color c) = Ok rgb) cs ->
  exists found, first_acceptable pixels cs = Ok found.
Proof.
  induction 1 as [|c cs [rgb Hrgb] _ [found IH]]; simpl; [eexists; reflexivity|].
  destruct (meets_minimum_criteria_Ok pixels c rgb Hrgb) as [accepted ->]. simpl.
  destruct accepted; [eexists; reflexivity|]. exists found. exact IH.
Qed.


(** Whatever [get_dominant_non_dark_cluster] returns is the id of one of
    the collected clusters. *)
Lemma get_dominant_returns_cluster (pixels : list RGB) (labels : list nat) (n id : nat) :
  get_dominant_non_dark_cluster pixels labels n = Ok id ->
  exists cs c, collect_clusters pixels labels (seq 0 n) = Ok cs
               /\ In c cs /\ cluster_id c = id.
Proof.
  unfold get_dominant_non_dark_cluster. intros H.
  destruct (collect_clusters pixels labels (seq 0 n)) as [cs|e]; simpl in H; [|discriminate].
  exists cs.
  destruct (first_acceptable pixels _) as [[found|]|e] eqn:Hfound; simpl in H; [| |discriminate].
  - inversion H; subst found.
    apply first_acceptable_Some in Hfound as (before & c & after & Hsplit & Hid & _).
    exists c. split; [reflexivity|]. split; [|exact Hid].
    apply (sort_by_In (fun x => - score x)%float). rewrite Hsplit.
    apply in_or_app. right. left. reflexivity.
  - destruct (np.sort_by _ cs) as [|c rest] eqn:Hsort; [discriminate|].
    inversion H; subst. exists c. split; [reflexivity|]. split; [|reflexivity].
    apply (sort_by_In (fun x => - score x)%float). rewrite Hsort. left. reflexivity.
Qed.

(** The id returned is the label of one of the pixels. *)
Lemma get_dominant_represented (pixels : list RGB) (labels : list nat) (n id : nat) :
  get_dominant_non_dark_cluster pixels labels n = Ok id ->
  In id labels /\ members pixels labels id <> [].
Proof.
  intros H.
  apply get_dominant_returns_cluster in H as (cs & c & Hcs & Hin & Hid).
  apply (collect_clusters_In _ _ _ _ Hcs) in Hin as (i & _ & Hentry).
  apply cluster_entry_Some in Hentry as (Hi & Hne & _).
  rewrite Hid in Hi. subst i. split; [|exact Hne].
  apply members_label with pixels. exact Hne.
Qed.

(** The collected clusters have median colours that convert, so the second
    loop raises nothing. *)
Lemma collected_convert (pixels : list RGB) (labels ids : list nat) (cs : list Cluster) :
  collect_clusters pixels labels ids = Ok cs ->
  Forall (fun c => exists rgb, to_8bit (median_color c) = Ok rgb) cs.
Proof.
  intros Hcs. apply Forall_forall. intros c Hin.
  apply (collect_clusters_In _ _ _ _ Hcs) in Hin as (i & _ & He).
  apply cluster_entry_Some in He as (_ & _ & _ & _ & _ & rgb & Hrgb & _).
  exists rgb. exact Hrgb.
Qed.

Lemma second_loop_total (pixels : list RGB) (labels ids : list nat) (cs : list Cluster) :
  collect_clusters pixels labels ids = Ok cs ->
  exists found,
    first_acceptable pixels (np.sort_by (fun x => - score x)%float cs) = Ok found.
Proof.
  intros Hcs. apply first_acceptable_total.
  apply Forall_forall. intros c Hin. apply sort_by_In in Hin.
  pose proof (collected_convert _ _ _ _ Hcs) as Hall.
  rewrite Forall_forall in Hall. apply Hall; exact Hin.
Qed.

(** What the selection raises: [IndexError] from the indexing, or the
    exception of [int] in the first loop. *)
Lemma get_dominant_Raise (pixels : list RGB) (labels : list nat) (n : nat) (e : error) :
  get_dominant_non_dark_cluster pixels labels n = Raise e ->
  e = IndexError
  \/ (conversion_error e /\ length pixels = length labels
      /\ exists i, (i < n)%nat /\ members pixels labels i <> []
                   /\ convertible (np_median (members pixels labels i)) = false).
Proof.
  unfold get_dominant_non_dark_cluster. intros H.
  destruct (collect_clusters pixels labels (seq 0 n)) as [cs|e'] eqn:Hcs; simpl in H.
  - destruct (second_loop_total _ _ _ _ Hcs) as [found Hfound].
    rewrite Hfound in H. simpl in H.
    destruct found; [discriminate|].
    destruct (np.sort_by _ cs); [|discriminate].
    inversion H. left. reflexivity.
  - inversion H; subst e'.
    apply collect_clusters_Raise in Hcs as (i & Hi & Hr).
    apply cluster_entry_Raise in Hr as [[He _]|(He & Hlen & Hm & Hc)]; [left; exact He|].
    right. split; [exact He|]. split; [exact Hlen|].
    exists i. apply in_seq in Hi. split; [lia|]. split; assumption.
Qed.

End ClusterFacts.

(** ** The kept pixels of the colour summary *)

Section SummaryFacts.
Context {L : Libraries}.

(** The mask, the indexing and the fallback of the summary select the kept
    pixels; the colour is the conversion of their median. *)
Lemma skin_tone_color_kept (skin_pixels : list RGB) :
  skin_tone_color skin_pixels = to_8bit (np_median (kept_pixels skin_pixels)).
Proof.
  unfold skin_tone_color, kept_pixels, brightness_threshold.
  rewrite boolean_index_Ok by (rewrite !length_map; reflexivity).
  rewrite map_map, mask_filter. simpl bind.
  destruct (filter _ skin_pixels); reflexivity.
Qed.

Lemma skin_tone_color_Raise (skin_pixels : list RGB) (e : error) :
  skin_tone_color skin_pixels = Raise e ->
  conversion_error e /\ convertible (np_median (kept_pixels skin_pixels)) = false.
Proof.
  rewrite skin_tone_color_kept. intros H.
  apply to_8bit_Raise in H as [Hc He]. split; assumption.
Qed.

Lemma kept_pixels_incl (skin_pixels : list RGB) :
  incl (kept_pixels skin_pixels) skin_pixels.
Proof.
  unfold kept_pixels. intros p Hin.
  destruct (filter _ skin_pixels) as [|q qs] eqn:Hf; [exact Hin|].
  rewrite <- Hf in Hin. apply filter_In in Hin as [Hin _]. exact Hin.
Qed.

Lemma kept_pixels_nonempty (skin_pixels : list RGB) :
  skin_pixels <> [] -> kept_pixels skin_pixels <> [].
Proof.
  intros Hne. unfold kept_pixels. destruct (filter _ skin_pixels); [exact Hne|discriminate].
Qed.

End SummaryFacts.

(** ** Cluster selection *)

(** C9.  The id returned by the selection is the label of at least one of
    the pixels it was given; in the program these are centre-patch pixels,
    whose labels are taken from the labels of all valid pixels, so the
    selected cluster is never empty and [NoSkinPixelsError] is never raised. *)
Theorem selected_cluster_is_represented (L : Libraries) :
  (forall pixels labels n id,
     get_dominant_non_dark_cluster pixels labels n = Ok id ->
     In id labels /\ members pixels labels id <> []) /\
  (forall image, display_skin_analysis image <> Raise NoSkinPixelsError).
Proof.
  assert (Hsel : forall pixels labels n id,
             get_dominant_non_dark_cluster pixels labels n = Ok id ->
             In id labels /\ members pixels labels id <> [])
    by (intros pixels labels n id; apply get_dominant_represented).
  split; [exact Hsel|].
  intros image H. unfold display_skin_analysis in H.
  destruct (length (pixels image) =? 0)%nat; [discriminate|].
  destruct (KMeans_fit (features image)) as [labels|]; simpl in H; [|discriminate].
  destruct (length (center_pixels image) =? 0)%nat; [discriminate|].
  destruct (np.take (pixels image) (center_pixels image)) as [colors|e] eqn:Hcolors;
    simpl in H; [|apply take_Raise in Hcolors; subst e; discriminate].
  destruct (np.take labels (center_pixels image)) as [center_labels|e] eqn:Hlabels;
    simpl in H; [|apply take_Raise in Hlabels; subst e; discriminate].
  destruct (get_dominant_non_dark_cluster colors center_labels 5) as [skin|e] eqn:Hskin;
    simpl in H.
  2:{ inversion H; subst e.
      apply get_dominant_Raise in Hskin as [Hd|[[Hd|Hd] _]]; discriminate. }
  destruct (skin_detection_output image labels skin); simpl in H; try discriminate.
  destruct (np.boolean_index (pixels image) _) as [skin_pixels|e] eqn:Hmask;
    simpl in H; [|apply boolean_index_Raise in Hmask as [-> _]; discriminate].
  apply Hsel in Hskin as [Hin _].
  apply (take_In _ _ _ Hlabels) in Hin.
  apply boolean_index_length in Hmask as [Hlen Hskin_pixels].
  rewrite length_map in Hlen. rewrite mask_members in Hskin_pixels.
  pose proof (members_nonempty _ _ _ Hlen Hin) as Hne.
  destruct skin_pixels as [|p ps]; [symmetry in Hskin_pixels; contradiction|].
  simpl in H.
  destruct (skin_tone_color (p :: ps)) as [[[r g] b]|e] eqn:Hcolor; simpl in H; [discriminate|].
  inversion H; subst e.
  apply skin_tone_color_Raise in Hcolor as [[Hd|Hd] _]; discriminate.
Qed.

Lemma selected_cluster_is_represented_witness :
  In 0%nat [0; 1]%nat /\ members [blue_rgb; skin_rgb] [0; 1]%nat 0 <> [].
Proof.
  apply (proj1 (selected_cluster_is_represented Reference.libraries)
           [blue_rgb; skin_rgb] [0; 1]%nat 5%nat 0%nat).
  vm_compute. reflexivity.
Defined.




(** ** Ties between clusters *)





(** ** The colour summary *)

(** C4.  For a non-empty set of skin pixels the summary of the program is
    the summarizer of the specification.  The mask indexing does not raise
    and gives the pixels whose channel mean is strictly above 0.7 times the
    mean of the three per-channel 95th percentiles; the kept set is that
    set, or all pixels when it is empty, so it is never empty; the colour
    returned is the per-channel median of the kept set times 255, each
    channel truncated towards zero; the only exceptions are those of [int]
    on a median that is not finite. *)
Theorem color_summary (L : Libraries) (skin_pixels : list RGB) :
  skin_pixels <> [] ->
  let threshold := brightness_threshold skin_pixels in
  let bright := filter (fun p => (threshold <? np_mean p)%float) skin_pixels in
  let kept := kept_pixels skin_pixels in
  np.boolean_index skin_pixels
    (map (fun m => (np_mean (np_percentile skin_pixels 95) * 0.7 <? m)%float)
         (map np_mean skin_pixels)) = Ok bright /\
  kept <> [] /\
  (bright <> [] ->
   forall p, In p kept <-> In p skin_pixels /\ (threshold <? np_mean p)%float = true) /\
  (bright <> [] -> forall p, (np_mean p =? threshold)%float = true -> ~ In p kept) /\
  (bright = [] -> kept = skin_pixels) /\
  (convertible (np_median kept) = true ->
   skin_tone_color skin_pixels = Ok (SkinColorSummarizer skin_pixels)) /\
  (forall rgb, skin_tone_color skin_pixels = Ok rgb -> rgb = SkinColorSummarizer skin_pixels) /\
  (forall e, skin_tone_color skin_pixels = Raise e ->
             conversion_error e /\ convertible (np_median kept) = false) /\
  (forall q : Q, (0 <= q)%Q -> (inject_Z (truncate q) <= q < inject_Z (truncate q) + 1)%Q) /\
  (forall q : Q, (q <= 0)%Q -> (inject_Z (truncate q) - 1 < q <= inject_Z (truncate q))%Q) /\
  np.int (((normalized 147 + normalized 149) / 2) * 255)%float = Ok 147.
Proof.
  intros Hne threshold bright kept.
  assert (Hkept : bright <> [] -> kept = bright).
  { unfold kept, kept_pixels. fold threshold. fold bright.
    destruct bright; [intros H; contradiction|reflexivity]. }
  assert (Hsummary : convertible (np_median kept) = true ->
            skin_tone_color skin_pixels = Ok (SkinColorSummarizer skin_pixels)).
  { intros Hc. rewrite skin_tone_color_kept. fold kept.
    rewrite (to_8bit_Ok _ Hc). unfold SkinColorSummarizer. fold kept.
    destruct (np_median kept) as [[r g] b]. reflexivity. }
  split; [|split; [|split; [|split; [|split; [|split; [|split; [|split; [|split; [|split]]]]]]]]].
  - rewrite boolean_index_Ok by (rewrite !length_map; reflexivity).
    rewrite map_map, mask_filter. reflexivity.
  - apply kept_pixels_nonempty. exact Hne.
  - intros Hbright p. rewrite (Hkept Hbright). unfold bright. apply filter_In.
  - intros Hbright p Heq Hin. rewrite (Hkept Hbright) in Hin.
    unfold bright in Hin. apply filter_In in Hin as [_ Hlt].
    destruct (eqb_not_ltb _ _ Heq) as [_ Hnot]. congruence.
  - intros Hnil. unfold kept, kept_pixels. fold threshold. fold bright.
    rewrite Hnil. reflexivity.
  - exact Hsummary.
  - intros rgb Hrgb. rewrite Hsummary in Hrgb.
    + inversion Hrgb. reflexivity.
    + rewrite skin_tone_color_kept in Hrgb. apply (to_8bit_convertible _ _ Hrgb).
  - intros e He. apply skin_tone_color_Raise. exact He.
  - apply truncate_nonneg.
  - apply truncate_nonpos.
  - vm_compute. reflexivity.
Qed.

Lemma color_summary_witness :
  bright_and_dark <> []
  /\ ~ In (normalized_rgb 20 10 5) (kept_pixels (L := Reference.libraries) bright_and_dark)
  /\ skin_tone_color (L := Reference.libraries) bright_and_dark = Ok (200, 150, 120).
Proof.
  assert (Hne : bright_and_dark <> []) by discriminate.
  pose proof (color_summary Reference.libraries bright_and_dark Hne)
    as (_ & _ & Hkept & _ & _ & Hsummary & _).
  split; [exact Hne|]. split.
  - intros Hin. apply Hkept in Hin as [_ Hlt].
    + vm_compute in Hlt. discriminate Hlt.
    + vm_compute. discriminate.
  - rewrite Hsummary by (vm_compute; reflexivity). vm_compute. reflexivity.
Defined.

(** When no pixel is brighter than the threshold the summary falls back to
    all pixels: of three saturated primaries each channel has median 0. *)
Example summary_falls_back :
  kept_pixels (L := Reference.libraries) primaries = primaries
  /\ skin_tone_color (L := Reference.libraries) primaries = Ok (0, 0, 0).
Proof. split; vm_compute; reflexivity. Qed.

(** ** The channel order of the skin test *)

(** C1 (the program departs from the claim).  The skin test of the cluster
    loop and of the acceptance loop hands the 8-bit median colour to the
    classifier reversed: the classifier's [r] receives the blue channel and
    its [b] the red one.  A cluster of the skin colour (200, 150, 120) is
    not flagged although the classifier accepts that colour, the cluster of
    the exchanged colour (120, 150, 200) is flagged, and of the two the
    exchanged one is selected. *)
Theorem skin_test_channel_order :
  (forall (L : Libraries) (c : RGB),
     skin_test c =
       (r <- np.int (np.red c * 255)%float ;;
        g <- np.int (np.green c * 255)%float ;;
        b <- np.int (np.blue c * 255)%float ;;
        Ok (is_likely_skin_color b g r))) /\
  (forall (L : Libraries) (pixels : list RGB) (labels : list nat) (i : nat),
     cluster_entry pixels labels i =
       (cluster_pixels <- np.boolean_index pixels (map (fun l => Nat.eqb l i) labels) ;;
        if (length cluster_pixels =? 0)%nat then Ok None
        else
          flagged <- skin_test (np_median cluster_pixels) ;;
          Ok (Some {| cluster_id := i;
                      score := expected_score pixels cluster_pixels flagged;
                      brightness := np_mean (np_median cluster_pixels);
                      size := length cluster_pixels;
                      median_color := np_median cluster_pixels |}))) /\
  (forall (L : Libraries) (pixels : list RGB) (c : Cluster),
     meets_minimum_criteria pixels c =
       if (0.15 <? brightness c)%float
          && (float_of_nat (length pixels) * 0.05 <? float_of_nat (size c))%float
       then skin_test (median_color c)
       else Ok false) /\
  to_8bit skin_rgb = Ok (200, 150, 120) /\
  is_likely_skin_color (L := Reference.libraries) 200 150 120 = true /\
  skin_test (L := Reference.libraries) skin_rgb = Ok false /\
  skin_test (L := Reference.libraries) blue_rgb = Ok true /\
  get_dominant_non_dark_cluster (L := Reference.libraries)
    [blue_rgb; skin_rgb] [0; 1]%nat 5 = Ok 0%nat.
Proof.
  split.
  { intros L c. unfold skin_test, to_8bit.
    destruct (np.int (np.red c * 255)); simpl; [|reflexivity].
    destruct (np.int (np.green c * 255)); simpl; [|reflexivity].
    destruct (np.int (np.blue c * 255)); reflexivity. }
  split.
  { intros L pixels labels i. unfold cluster_entry, skin_test.
    destruct (np.boolean_index pixels _) as [cluster_pixels|e]; simpl; [|reflexivity].
    destruct (length cluster_pixels =? 0)%nat; [reflexivity|].
    destruct (to_8bit (np_median cluster_pixels)) as [rgb|e]; simpl; [|reflexivity].
    unfold expected_score. destruct (is_skin_of rgb); reflexivity. }
  split; [intros L pixels c; reflexivity|].
  repeat split; vm_compute; reflexivity.
Qed.

(** ** Examples of the classifier *)

Lemma is_likely_skin_color_decision_witness :
  is_likely_skin_color (L := Reference.libraries) 200 150 120
  = skin_decision (L := Reference.libraries) 200 150 120.
Proof.
  apply (is_likely_skin_color_decision Reference.libraries 200 150 120); lia.
Defined.

Example light_skin_accepted :
  is_likely_skin_color (L := Reference.libraries) 200 150 120 = true.
Proof. vm_compute. reflexivity. Qed.

Example saturated_blue_rejected :
  is_likely_skin_color (L := Reference.libraries) 10 10 200 = false.
Proof. vm_compute. reflexivity. Qed.

(** The ratios are binary64 quotients.  At (146, 62, 32) the exact
    difference of the red and green ratios is 84 / 240 = 0.35, yet the
    rounded quotients differ by less than the binary64 constant 0.35: the
    normalized rule holds there and the colour is accepted. *)
Remark normalized_rule_is_binary64 :
  100 * Z.abs (146 - 62) = 35 * (146 + 62 + 32)
  /\ normalized_RGB_rule 146 62 32 = true
  /\ is_likely_skin_color (L := Reference.libraries) 146 62 32 = true.
Proof. repeat split; vm_compute; reflexivity. Qed.
(** * Further properties *)

(** ** Lightness categories are monotone and total *)

(** X1.  A larger lightness value never gets a darker category: the index
    of the description in the list from lightest to darkest does not grow
    with the value.  The function is defined for every value: above 100 it
    answers "Very Light", below 0 "Very Dark". *)
Theorem lightness_description_monotone (L1 L2 : Q) :
  (L1 <= L2)%Q ->
  (category_index (get_lightness_description L2)
   <= category_index (get_lightness_description L1))%nat
  /\ ((100 < L2)%Q -> get_lightness_description L2 = "Very Light"%string)
  /\ ((L1 < 0)%Q -> get_lightness_description L1 = "Very Dark"%string).
Proof.
  intros Hle. split; [|split].
  - unfold get_lightness_description.
    split_Qle; try (vm_compute; lia); exfalso; lra.
  - intros H. unfold get_lightness_description. split_Qle; try reflexivity; exfalso; lra.
  - intros H. unfold get_lightness_description. split_Qle; try reflexivity; exfalso; lra.
Qed.

Lemma lightness_description_monotone_witness :
  (category_index (get_lightness_description 72)
   <= category_index (get_lightness_description 41))%nat.
Proof.
  apply (lightness_description_monotone 41 72). lra.
Defined.


(** ** Normalizing a channel and back, in binary64 *)

Lemma times_255_normalized (c : Z) :
  0 <= c <= 255 -> times_255 (normalized c) = float_of_int c.
Proof.
  intros Hc.
  assert (H : all_below 256 (fun c =>
            Leibniz.eqb (times_255 (normalized c)) (float_of_int c)) = true)
    by (vm_compute; reflexivity).
  pose proof (all_below_spec _ _ H c) as Hc'. cbv beta in Hc'.
  apply Leibniz.eqb_spec. apply Hc'. lia.
Qed.

Lemma int_float_of_int (c : Z) : 0 <= c <= 255 -> np.int (float_of_int c) = Ok c.
Proof.
  intros Hc.
  assert (H : all_below 256 (fun c =>
            match np.int (float_of_int c) with
            | Ok z => z =? c
            | Raise _ => false
            end) = true)
    by (vm_compute; reflexivity).
  pose proof (all_below_spec _ _ H c) as Hc'. cbv beta in Hc'.
  destruct (np.int (float_of_int c)) as [z|e].
  - f_equal. apply Z.eqb_eq. apply Hc'. lia.
  - assert (Hf : false = true) by (apply Hc'; lia). discriminate Hf.
Qed.

(** The 8-bit colour of a normalized 8-bit colour is the colour itself. *)
Lemma to_8bit_normalized (r g b : Z) :
  0 <= r <= 255 -> 0 <= g <= 255 -> 0 <= b <= 255 ->
  to_8bit (normalized_rgb r g b) = Ok (r, g, b).
Proof.
  intros Hr Hg Hb. unfold to_8bit, normalized_rgb, np.red, np.green, np.blue.
  cbn [fst snd].
  change (normalized r * 255)%float with (times_255 (normalized r)).
  change (normalized g * 255)%float with (times_255 (normalized g)).
  change (normalized b * 255)%float with (times_255 (normalized b)).
  rewrite !times_255_normalized by assumption.
  rewrite !int_float_of_int by assumption. reflexivity.
Qed.

(** X3.  For every 8-bit value [c] the binary64 product [(c / 255) * 255]
    is exactly the float of [c]: un-normalizing a normalized channel with
    [int(x * 255)] gives the channel back, no unit is lost to rounding. *)
Theorem normalize_round_trip (c : Z) :
  0 <= c <= 255 ->
  times_255 (normalized c) = float_of_int c
  /\ np.int (times_255 (normalized c)) = Ok c.
Proof.
  intros Hc. rewrite (times_255_normalized c Hc).
  split; [reflexivity|]. apply int_float_of_int. exact Hc.
Qed.

Lemma normalize_round_trip_witness :
  times_255 (normalized 200) = float_of_int 200
  /\ np.int (times_255 (normalized 200)) = Ok 200.
Proof.
  apply (normalize_round_trip 200). lia.
Defined.

(** ** The colour as text *)

Lemma format_02x_byte (n : Z) :
  0 <= n <= 255 ->
  format_02x n = String (hex_digit (n / 16)) (String (hex_digit (n mod 16)) EmptyString).
Proof.
  intros Hn.
  assert (H : all_below 256 (fun n =>
            String.eqb (format_02x n)
              (String (hex_digit (n / 16)) (String (hex_digit (n mod 16)) EmptyString))) = true)
    by (vm_compute; reflexivity).
  pose proof (all_below_spec _ _ H n) as Hn'. cbv beta in Hn'.
  apply String.eqb_eq. apply Hn'. lia.
Qed.

Lemma hex_pair_digits (n : Z) :
  0 <= n <= 255 -> hex_pair (hex_digit (n / 16)) (hex_digit (n mod 16)) = Some n.
Proof.
  intros Hn.
  assert (H : all_below 256 (fun n =>
            match hex_pair (hex_digit (n / 16)) (hex_digit (n mod 16)) with
            | Some m => m =? n
            | None => false
            end) = true)
    by (vm_compute; reflexivity).
  pose proof (all_below_spec _ _ H n) as Hn'. cbv beta in Hn'.
  destruct (hex_pair _ _) as [m|].
  - f_equal. apply Z.eqb_eq. apply Hn'. lia.
  - assert (Hf : false = true) by (apply Hn'; lia). discriminate Hf.
Qed.

(** X4.  For 8-bit channels the text of the colour is "#" followed by six
    lower-case hexadecimal digits, two per channel in the order red, green,
    blue, and reading it back gives the three channels. *)
Theorem rgb_hex_round_trip (r g b : Z) :
  0 <= r <= 255 -> 0 <= g <= 255 -> 0 <= b <= 255 ->
  String.length (rgb_hex (r, g, b)) = 7%nat
  /\ parse_rgb_hex (rgb_hex (r, g, b)) = Some (r, g, b).
Proof.
  intros Hr Hg Hb. unfold rgb_hex.
  rewrite (format_02x_byte r Hr), (format_02x_byte g Hg), (format_02x_byte b Hb).
  split; [reflexivity|].
  cbn [parse_rgb_hex String.append]. rewrite Ascii.eqb_refl.
  rewrite (hex_pair_digits r Hr), (hex_pair_digits g Hg), (hex_pair_digits b Hb).
  reflexivity.
Qed.

Lemma rgb_hex_round_trip_witness :
  String.length (rgb_hex (200, 150, 120)) = 7%nat
  /\ parse_rgb_hex (rgb_hex (200, 150, 120)) = Some (200, 150, 120).
Proof.
  apply (rgb_hex_round_trip 200 150 120); lia.
Defined.


(** ** When the selection returns and when it raises *)

Section SelectionOutcome.
Context {L : Libraries}.

(** With one label per pixel and a label below [n_clusters], the selection
    returns the id of a represented cluster, or raises the exception of
    [int] on the median of a represented cluster. *)
Lemma get_dominant_outcome (pixels : list RGB) (labels : list nat) (n : nat) :
  length pixels = length labels -> Exists (fun l => (l < n)%nat) labels ->
  (exists id, get_dominant_non_dark_cluster pixels labels n = Ok id
              /\ In id labels /\ (id < n)%nat)
  \/ (exists e i, get_dominant_non_dark_cluster pixels labels n = Raise e
                  /\ conversion_error e /\ (i < n)%nat
                  /\ members pixels labels i <> []
                  /\ convertible (np_median (members pixels labels i)) = false).
Proof.
  intros Hlen Hex.
  destruct (get_dominant_non_dark_cluster pixels labels n) as [id|e] eqn:Hret.
  - left. exists id. split; [reflexivity|].
    apply get_dominant_returns_cluster in Hret as (cs & c & Hcs & Hin & Hc).
    apply (collect_clusters_In _ _ _ _ Hcs) in Hin as (i & Hi & He).
    apply cluster_entry_Some in He as (Hci & Hm & _).
    apply in_seq in Hi. subst i. subst id.
    split; [|lia]. apply members_label with pixels. exact Hm.
  - right. unfold get_dominant_non_dark_cluster in Hret.
    destruct (collect_clusters pixels labels (seq 0 n)) as [cs|e'] eqn:Hcs; simpl in Hret.
    + exfalso.
      destruct (second_loop_total _ _ _ _ Hcs) as [found Hfound].
      rewrite Hfound in Hret. simpl in Hret.
      destruct found; [discriminate|].
      destruct (np.sort_by _ cs) as [|c rest] eqn:Hsort; [|discriminate].
      apply sort_by_nil_inv in Hsort. subst cs.
      apply Exists_exists in Hex as (l & Hin & Hl).
      destruct (collect_clusters_complete pixels labels (seq 0 n) [] l Hlen Hcs)
        as (c & Hc & _); [apply in_seq; lia| |contradiction].
      apply members_nonempty; assumption.
    + inversion Hret; subst e'.
      apply collect_clusters_Raise in Hcs as (i & Hi & Hr).
      apply cluster_entry_Raise in Hr as [[_ Hne]|(He & _ & Hm & Hc)]; [contradiction|].
      exists e, i. apply in_seq in Hi.
      split; [reflexivity|]. split; [exact He|]. split; [lia|]. split; assumption.
Qed.

Lemma get_dominant_succeeds (pixels : list RGB) (labels : list nat) (n : nat) :
  length pixels = length labels -> Exists (fun l => (l < n)%nat) labels ->
  (forall i, (i < n)%nat -> members pixels labels i <> [] ->
             convertible (np_median (members pixels labels i)) = true) ->
  exists id, get_dominant_non_dark_cluster pixels labels n = Ok id
             /\ In id labels /\ (id < n)%nat.
Proof.
  intros Hlen Hex Hconv.
  destruct (get_dominant_outcome pixels labels n Hlen Hex)
    as [Hok|(e & i & _ & _ & Hi & Hm & Hc)]; [exact Hok|].
  rewrite (Hconv i Hi Hm) in Hc. discriminate.
Qed.

End SelectionOutcome.

(** X5.  With pixels and labels of the same length and some label below
    [n_clusters], [get_dominant_non_dark_cluster] returns an id, one of the
    labels and below [n_clusters], unless the median of a represented
    cluster is not finite: then it raises the exception of [int].  With
    [n_clusters = 0], with arrays of different lengths, or with no label
    below [n_clusters] it raises [IndexError].  It raises nothing else. *)
Theorem selection_outcome (L : Libraries) (pixels : list RGB) (labels : list nat) (n : nat) :
  (length pixels = length labels -> Exists (fun l => (l < n)%nat) labels ->
   (exists id, get_dominant_non_dark_cluster pixels labels n = Ok id
               /\ In id labels /\ (id < n)%nat)
   \/ (exists e i, get_dominant_non_dark_cluster pixels labels n = Raise e
                   /\ conversion_error e /\ (i < n)%nat
                   /\ members pixels labels i <> []
                   /\ convertible (np_median (members pixels labels i)) = false)) /\
  (n = 0%nat \/ length pixels <> length labels \/ Forall (fun l => (n <= l)%nat) labels ->
   get_dominant_non_dark_cluster pixels labels n = Raise IndexError) /\
  (forall e, get_dominant_non_dark_cluster pixels labels n = Raise e ->
     e = IndexError
     \/ (conversion_error e /\ length pixels = length labels
         /\ exists i, (i < n)%nat /\ members pixels labels i <> []
                      /\ convertible (np_median (members pixels labels i)) = false)).
Proof.
  split; [|split].
  - intros Hlen Hex. apply get_dominant_outcome; assumption.
  - intros Hcases. unfold get_dominant_non_dark_cluster.
    destruct n as [|n]; [reflexivity|].
    destruct Hcases as [H0|[Hne|Hall]]; [discriminate| |].
    + rewrite <- cons_seq. cbn [collect_clusters].
      rewrite (cluster_entry_mismatch pixels labels 0 Hne). reflexivity.
    + destruct (Nat.eq_dec (length pixels) (length labels)) as [Hlen|Hne].
      * assert (Hempty : forall i, In i (seq 0 (S n)) -> members pixels labels i = []).
        { intros i Hi.
          destruct (members pixels labels i) as [|p ps] eqn:Hm; [reflexivity|].
          exfalso. assert (Hin : In i labels) by (apply members_label with pixels; congruence).
          apply in_seq in Hi. rewrite Forall_forall in Hall. specialize (Hall i Hin). lia. }
        destruct (collect_clusters_total pixels labels (seq 0 (S n)) Hlen) as [cs Hcs].
        { intros i Hi Hm. rewrite (Hempty i Hi) in Hm. contradiction. }
        assert (Hnil : cs = []).
        { apply no_element_nil. intros c Hin.
          apply (collect_clusters_In _ _ _ _ Hcs) in Hin as (i & Hi & He).
          apply cluster_entry_Some in He as (_ & Hm & _).
          apply Hm. apply Hempty. exact Hi. }
        rewrite Hcs, Hnil. reflexivity.
      * rewrite <- cons_seq. cbn [collect_clusters].
        rewrite (cluster_entry_mismatch pixels labels 0 Hne). reflexivity.
  - intros e He. apply get_dominant_Raise. exact He.
Qed.

Lemma selection_outcome_witness :
  (exists id, get_dominant_non_dark_cluster (L := Reference.libraries)
                [blue_rgb; skin_rgb] [7; 2]%nat 5 = Ok id
              /\ In id [7; 2]%nat /\ (id < 5)%nat)
  /\ get_dominant_non_dark_cluster (L := Reference.libraries)
       [blue_rgb; skin_rgb] [7; 9]%nat 5 = Raise IndexError.
Proof.
  split.
  - destruct (proj1 (selection_outcome Reference.libraries [blue_rgb; skin_rgb] [7; 2]%nat 5))
      as [Hok|(e & i & Hraise & _)].
    + reflexivity.
    + right. left. lia.
    + exact Hok.
    + vm_compute in Hraise. discriminate Hraise.
  - apply (proj1 (proj2 (selection_outcome Reference.libraries
                           [blue_rgb; skin_rgb] [7; 9]%nat 5))).
    right. right. repeat constructor; lia.
Defined.

(** ** Which cluster is returned when some cluster is acceptable *)

Lemma StronglySorted_split {A : Type} (R : A -> A -> Prop) (l1 l2 : list A) (x : A) :
  StronglySorted R (l1 ++ x :: l2) -> Forall (R x) l2.
Proof.
  induction l1 as [|y l1 IH]; simpl; intros H; inversion H; subst; [assumption|].
  apply IH. assumption.
Qed.

(** X6.  When at least one cluster is bright enough, large enough and
    accepted by the skin test, the cluster returned is such a cluster, and
    no other such cluster has a higher score. *)
Theorem selection_prefers_acceptable (L : Libraries) (pixels : list RGB) (labels : list nat)
  (n : nat) (clusters : list Cluster) :
  collect_clusters pixels labels (seq 0 n) = Ok clusters ->
  (exists c, In c clusters /\ meets_minimum_criteria pixels c = Ok true) ->
  exists c, In c clusters
            /\ get_dominant_non_dark_cluster pixels labels n = Ok (cluster_id c)
            /\ meets_minimum_criteria pixels c = Ok true
            /\ ((forall c', In c' clusters -> PrimFloat.is_nan (score c') = false) ->
                forall c', In c' clusters -> meets_minimum_criteria pixels c' = Ok true ->
                           (score c' <=? score c)%float = true).
Proof.
  intros Hcs (c0 & Hin0 & Hmeets0).
  unfold get_dominant_non_dark_cluster. rewrite Hcs. simpl bind.
  set (sorted := np.sort_by (fun x => - score x)%float clusters).
  destruct (second_loop_total _ _ _ _ Hcs) as [found Hfound]. fold sorted in Hfound.
  rewrite Hfound. simpl bind.
  destruct found as [id|].
  - apply first_acceptable_Some in Hfound
      as (before & c & after & Hsplit & Hid & Hmeets & Hbefore).
    assert (Hin : In c clusters).
    { apply (sort_by_In (fun x => - score x)%float). fold sorted. rewrite Hsplit.
      apply in_or_app. right. left. reflexivity. }
    exists c. split; [exact Hin|]. split; [rewrite Hid; reflexivity|].
    split; [exact Hmeets|].
    intros Hnan c' Hin' Hmeets'.
    assert (Hsorted : StronglySorted (fun a b => (- score a <=? - score b)%float = true) sorted).
    { apply (sort_by_sorted (fun x => - score x)%float).
      apply Forall_forall. intros a Ha. rewrite is_nan_opp. apply Hnan; exact Ha. }
    apply (proj2 (sort_by_In (fun x => - score x)%float clusters c')) in Hin'.
    fold sorted in Hin'. rewrite Hsplit in Hin', Hsorted.
    apply in_app_or in Hin' as [Hb|[<-|Ha]].
    + rewrite Forall_forall in Hbefore. rewrite (Hbefore c' Hb) in Hmeets'. discriminate.
    + apply leb_refl. apply Hnan. exact Hin.
    + apply StronglySorted_split in Hsorted. rewrite Forall_forall in Hsorted.
      rewrite <- leb_opp. apply Hsorted. exact Ha.
  - exfalso. apply first_acceptable_None in Hfound. rewrite Forall_forall in Hfound.
    rewrite (Hfound c0) in Hmeets0; [discriminate|].
    apply sort_by_In. exact Hin0.
Qed.

Lemma selection_prefers_acceptable_witness :
  exists c, In c flagged_clusters
            /\ cluster_id c = 1%nat
            /\ get_dominant_non_dark_cluster (L := Reference.libraries)
                 two_flagged_pixels [0; 1]%nat 5 = Ok (cluster_id c)
            /\ forall c', In c' flagged_clusters -> (score c' <=? score c)%float = true.
Proof.
  destruct (selection_prefers_acceptable Reference.libraries
              two_flagged_pixels [0; 1]%nat 5 flagged_clusters)
    as (c & Hin & Hret & _ & Hbest).
  - vm_compute. reflexivity.
  - exists (nth 0 flagged_clusters
              {| cluster_id := 0; score := 0; brightness := 0; size := 0;
                 median_color := (0, 0, 0)%float |}).
    split; [left; reflexivity|]. vm_compute. reflexivity.
  - exists c. split; [exact Hin|].
    assert (Hone : get_dominant_non_dark_cluster (L := Reference.libraries)
                     two_flagged_pixels [0; 1]%nat 5 = Ok 1%nat) by (vm_compute; reflexivity).
    split; [rewrite Hone in Hret; inversion Hret; reflexivity|].
    split; [exact Hret|].
    intros c' Hin'. apply Hbest.
    + intros c'' [<-|[<-|[]]]; vm_compute; reflexivity.
    + exact Hin'.
    + destruct Hin' as [<-|[<-|[]]]; vm_compute; reflexivity.
Defined.

(** ** The summary of a region of one colour *)

Lemma filter_uniform {A : Type} (f : A -> bool) (c : A) (l : list A) :
  Forall (fun p => p = c) l -> filter f l = if f c then l else [].
Proof.
  induction 1 as [|p l Hp _ IH]; simpl; [destruct (f c); reflexivity|].
  subst p. rewrite IH. destruct (f c); reflexivity.
Qed.

Section UniformSummary.
Context {L : Libraries}.

(** Of pixels of one colour the brightness filter keeps all or none, and
    in both cases the kept set is the whole set. *)
Lemma kept_pixels_uniform (skin_pixels : list RGB) (c : RGB) :
  Forall (fun p => p = c) skin_pixels -> kept_pixels skin_pixels = skin_pixels.
Proof.
  intros Hall. unfold kept_pixels. rewrite (filter_uniform _ c skin_pixels Hall).
  destruct (brightness_threshold skin_pixels <? np_mean c)%float; [|reflexivity].
  destruct skin_pixels; reflexivity.
Qed.

Lemma skin_tone_color_uniform (skin_pixels : list RGB) (c : RGB) :
  Forall (fun p => p = c) skin_pixels ->
  np_median skin_pixels = c ->
  skin_tone_color skin_pixels = to_8bit c.
Proof.
  intros Hall Hmedian.
  rewrite skin_tone_color_kept, (kept_pixels_uniform skin_pixels c Hall), Hmedian.
  reflexivity.
Qed.

End UniformSummary.

(** X7.  When all skin pixels have one colour and the median of the set is
    that colour, the brightness filter changes nothing and the summary is
    the conversion of that colour, whatever the number of pixels and
    whether the filter keeps them or falls back; for the normalized form of
    an 8-bit colour (r, g, b) the binary64 round trip makes it (r, g, b)
    itself. *)
Theorem uniform_color_summary (L : Libraries) (skin_pixels : list RGB) (c : RGB) :
  skin_pixels <> [] ->
  Forall (fun p => p = c) skin_pixels ->
  np_median skin_pixels = c ->
  kept_pixels skin_pixels = skin_pixels
  /\ skin_tone_color skin_pixels = to_8bit c
  /\ forall r g b,
       0 <= r <= 255 -> 0 <= g <= 255 -> 0 <= b <= 255 ->
       c = normalized_rgb r g b -> skin_tone_color skin_pixels = Ok (r, g, b).
Proof.
  intros Hne Hall Hmedian.
  pose proof (skin_tone_color_uniform skin_pixels c Hall Hmedian) as Hmain.
  split; [apply kept_pixels_uniform with c; exact Hall|].
  split; [exact Hmain|].
  intros r g b Hr Hg Hb ->. rewrite Hmain. apply to_8bit_normalized; assumption.
Qed.

Lemma uniform_color_summary_witness :
  skin_tone_color (L := Reference.libraries) [skin_rgb; skin_rgb; skin_rgb]
  = Ok (200, 150, 120).
Proof.
  refine (proj2 (proj2 (uniform_color_summary Reference.libraries
                          [skin_rgb; skin_rgb; skin_rgb] skin_rgb _ _ _))
            200 150 120 _ _ _ _); try lia.
  - discriminate.
  - repeat constructor.
  - vm_compute. reflexivity.
  - reflexivity.
Defined.

(** ** The three lists of the extraction loop *)

Lemma StronglySorted_app {A : Type} (R : A -> A -> Prop) (l1 l2 : list A) :
  StronglySorted R l1 -> StronglySorted R l2 ->
  (forall x y, In x l1 -> In y l2 -> R x y) ->
  StronglySorted R (l1 ++ l2).
Proof.
  induction 1 as [|x l1 Hs IH Hall]; simpl; intros H2 Hcross; [exact H2|].
  constructor.
  - apply IH; [exact H2|]. intros a b Ha Hb. apply Hcross; [right; exact Ha|exact Hb].
  - apply Forall_app. split; [exact Hall|].
    apply Forall_forall. intros y Hy. apply Hcross; [left; reflexivity|exact Hy].
Qed.

Lemma StronglySorted_NoDup {A : Type} (R : A -> A -> Prop) (l : list A) :
  (forall x, ~ R x x) -> StronglySorted R l -> NoDup l.
Proof.
  intros Hirr. induction 1 as [|x l Hs IH Hall]; constructor; [|exact IH].
  intros Hin. rewrite Forall_forall in Hall. apply (Hirr x). apply Hall. exact Hin.
Qed.

Lemma row_scan_sorted (p : nat -> bool) (row : nat) (cols : list nat) :
  StronglySorted lt cols ->
  StronglySorted row_major_lt
    (flat_map (fun col => if p col then [(row, col)] else []) cols).
Proof.
  induction 1 as [|col cols Hs IH Hall]; simpl; [constructor|].
  destruct (p col); [|exact IH]. simpl. constructor; [exact IH|].
  apply Forall_forall. intros [row' col'] Hin.
  apply in_flat_map in Hin as (c & Hc & Hin).
  destruct (p c); [|contradiction]. destruct Hin as [Heq|[]]. inversion Heq; subst.
  right. simpl. split; [reflexivity|].
  rewrite Forall_forall in Hall. apply Hall. exact Hc.
Qed.

Lemma grid_scan_sorted (p : nat -> nat -> bool) (rows cols : list nat) :
  StronglySorted lt rows -> StronglySorted lt cols ->
  StronglySorted row_major_lt
    (flat_map (fun row => flat_map (fun col => if p row col then [(row, col)] else []) cols)
              rows).
Proof.
  intros Hrows Hcols. induction Hrows as [|row rows Hs IH Hall]; simpl; [constructor|].
  apply StronglySorted_app; [apply row_scan_sorted; exact Hcols|exact IH|].
  intros [r1 c1] [r2 c2] H1 H2.
  apply in_flat_map in H1 as (c & _ & H1).
  destruct (p row c); [|contradiction]. destruct H1 as [Heq|[]]. inversion Heq; subst.
  apply in_flat_map in H2 as (r & Hr & H2).
  apply in_flat_map in H2 as (c' & _ & H2).
  destruct (p r c'); [|contradiction]. destruct H2 as [Heq'|[]]. inversion Heq'; subst.
  left. simpl. rewrite Forall_forall in Hall. apply Hall. exact Hr.
Qed.

Section ExtractionOrder.
Context {L : Libraries}.

Lemma valid_pixel_coords_sorted (image : Image) :
  StronglySorted row_major_lt (valid_pixel_coords image).
Proof.
  rewrite valid_pixel_coords_eq.
  apply (grid_scan_sorted (fun row col => 127 <? opacity image row col));
    apply seq_increasing.
Qed.

Lemma valid_pixel_coords_NoDup (image : Image) : NoDup (valid_pixel_coords image).
Proof.
  apply StronglySorted_NoDup with row_major_lt; [|apply valid_pixel_coords_sorted].
  intros [row col] [H|[_ H]]; simpl in H; lia.
Qed.

Lemma extract_pixel_entry (image : Image) (row col : nat) :
  match extract_pixel (filtered image row col) row col with
  | Some entry => [entry]
  | None => []
  end
  = map (entry_at image) (if 127 <? opacity image row col then [(row, col)] else []).
Proof.
  unfold filtered, opacity.
  destruct (image_alpha image) as [alpha|].
  - destruct (127 <? alpha row col) eqn:Ha; cbn [map]; unfold extract_pixel, entry_at, normalized_rgb;
      destruct (bilateralFilter _ _ _ row col) as [[b g] r]; rewrite Ha; [|reflexivity].
    destruct (cvtColor_BGR2HSV b g r) as [[h s] v].
    destruct (cvtColor_BGR2YCrCb b g r) as [[y cr] cb].
    reflexivity.
  - change (127 <? 255) with true. cbv iota. cbn [map].
    unfold extract_pixel, entry_at, normalized_rgb.
    destruct (bilateralFilter _ _ _ row col) as [[b g] r].
    change (127 <? 255) with true. cbv iota.
    destruct (cvtColor_BGR2HSV b g r) as [[h s] v].
    destruct (cvtColor_BGR2YCrCb b g r) as [[y cr] cb].
    reflexivity.
Qed.

Lemma extract_entries (image : Image) :
  extract image = map (entry_at image) (valid_pixel_coords image).
Proof.
  rewrite valid_pixel_coords_eq. unfold extract.
  rewrite map_flat_map. apply flat_map_ext. intros row.
  rewrite map_flat_map. apply flat_map_ext. intros col.
  apply extract_pixel_entry.
Qed.

End ExtractionOrder.

(** X8.  The three lists built by the extraction loop have the same length
    and are co-indexed: the positions are listed in row-major order without
    repetition, and at the index of a position the pixel list holds the
    filtered colour divided by 255 and the feature list a vector of nine
    values that starts with the same three. *)
Theorem extraction_co_indexed (L : Libraries) (image : Image) :
  length (pixels image) = length (valid_pixel_coords image)
  /\ length (features image) = length (valid_pixel_coords image)
  /\ StronglySorted row_major_lt (valid_pixel_coords image)
  /\ NoDup (valid_pixel_coords image)
  /\ forall idx row col,
       nth_error (valid_pixel_coords image) idx = Some (row, col) ->
       let '(b, g, r) :=
         bilateralFilter (height image) (width image) (image_bgr image) row col in
       nth_error (pixels image) idx = Some (normalized_rgb r g b)
       /\ exists fv, nth_error (features image) idx = Some fv
                     /\ length fv = 9%nat
                     /\ firstn 3 fv
                        = [float_of_int r / 255; float_of_int g / 255;
                           float_of_int b / 255]%float.
Proof.
  split; [apply pixels_length|]. split; [apply features_length|].
  split; [apply valid_pixel_coords_sorted|]. split; [apply valid_pixel_coords_NoDup|].
  intros idx row col Hnth.
  assert (He : nth_error (extract image) idx = Some (entry_at image (row, col))).
  { rewrite extract_entries. apply map_nth_error. exact Hnth. }
  unfold pixels, features.
  rewrite (map_nth_error _ _ _ He), (map_nth_error _ _ _ He).
  unfold entry_at.
  destruct (bilateralFilter _ _ _ row col) as [[b g] r].
  destruct (cvtColor_BGR2HSV b g r) as [[h s] v].
  destruct (cvtColor_BGR2YCrCb b g r) as [[y cr] cb].
  split; [reflexivity|]. eexists. split; [reflexivity|]. split; reflexivity.
Qed.

Lemma extraction_co_indexed_witness :
  nth_error (pixels (L := Reference.libraries) opaque_bgra_image) 3
  = Some (normalized_rgb 200 150 120).
Proof.
  exact (proj1 (proj2 (proj2 (proj2 (proj2
           (extraction_co_indexed Reference.libraries opaque_bgra_image))))
           3%nat 1%nat 1%nat eq_refl)).
Defined.


(** ** The output image *)

Lemma set_pixel_same (output : nat -> nat -> list Z) (row col : nat) (value : list Z) :
  set_pixel output row col value row col = value.
Proof. unfold set_pixel. rewrite !Nat.eqb_refl. reflexivity. Qed.

Lemma set_pixel_other (output : nat -> nat -> list Z) (row col row' col' : nat) (value : list Z) :
  (row', col') <> (row, col) -> set_pixel output row col value row' col' = output row' col'.
Proof.
  intros Hne. unfold set_pixel.
  destruct (Nat.eqb_spec row' row) as [->|_]; [|reflexivity].
  destruct (Nat.eqb_spec col' col) as [->|_]; [|reflexivity].
  contradiction Hne. reflexivity.
Qed.

(** What the finished loop has written. *)
Lemma paint_output_written (image : Image) (labels : list nat) (skin_cluster : nat)
  (entries : list (nat * (nat * nat))) (output0 output : nat -> nat -> list Z) :
  NoDup (map snd entries) ->
  paint_output image labels skin_cluster entries output0 = Output output ->
  (forall idx row col, In (idx, (row, col)) entries ->
     exists label, nth_error labels idx = Some label
       /\ output row col = if (label =? skin_cluster)%nat
                           then image_at image row col else mask_color)
  /\ (forall row col, ~ In (row, col) (map snd entries) -> output row col = output0 row col).
Proof.
  revert output0. induction entries as [|[idx0 [row0 col0]] rest IH]; intros output0 Hnd H.
  - simpl in H. inversion H; subst. split; [intros ? ? ? []|reflexivity].
  - simpl in Hnd. inversion Hnd as [|? ? Hnotin Hnd']; subst.
    cbn [paint_output] in H.
    destruct (nth_error labels idx0) as [label0|] eqn:Hlabel; [|discriminate].
    set (value := if (label0 =? skin_cluster)%nat
                  then image_at image row0 col0 else mask_color).
    assert (Hrest : paint_output image labels skin_cluster rest
                      (set_pixel output0 row0 col0 value) = Output output).
    { unfold value. destruct (label0 =? skin_cluster)%nat; [exact H|].
      destruct (length (output0 row0 col0) =? length mask_color)%nat; [exact H|discriminate]. }
    destruct (IH _ Hnd' Hrest) as [Hin Hout]. split.
    + intros idx row col [Heq|Hrest_in].
      * inversion Heq; subst. exists label0. split; [exact Hlabel|].
        rewrite (Hout row col Hnotin). apply set_pixel_same.
      * apply Hin; exact Hrest_in.
    + intros row col Hnot. simpl in Hnot.
      rewrite Hout by (intros Hin'; apply Hnot; right; exact Hin').
      apply set_pixel_other. intros Heq. apply Hnot. left. symmetry. exact Heq.
Qed.

(** When the loop finishes and when the assignment of four values fails;
    [k] is the number of channels. *)
Lemma paint_output_result (image : Image) (labels : list nat) (skin_cluster : nat) (k : nat)
  (entries : list (nat * (nat * nat))) (output0 : nat -> nat -> list Z) :
  (forall row col, length (image_at image row col) = k) ->
  (forall row col, length (output0 row col) = k) ->
  (forall idx coord, In (idx, coord) entries -> (idx < length labels)%nat) ->
  (k = 4%nat \/ (forall idx coord, In (idx, coord) entries ->
                                  nth_error labels idx = Some skin_cluster) ->
   exists output, paint_output image labels skin_cluster entries output0 = Output output)
  /\ (k <> 4%nat ->
      (exists idx coord label, In (idx, coord) entries /\ nth_error labels idx = Some label
                               /\ label <> skin_cluster) ->
      paint_output image labels skin_cluster entries output0 = OutputValueError).
Proof.
  intros Himage. revert output0.
  induction entries as [|[idx0 [row0 col0]] rest IH]; intros output0 Hout Hidx.
  - split; [intros _; eexists; reflexivity|].
    intros _ (idx & coord & label & [] & _).
  - assert (Hidx' : forall idx coord, In (idx, coord) rest -> (idx < length labels)%nat)
      by (intros idx coord Hin; apply (Hidx idx coord); right; exact Hin).
    cbn [paint_output].
    destruct (nth_error labels idx0) as [label0|] eqn:Hlabel.
    2:{ exfalso. apply nth_error_None in Hlabel.
        specialize (Hidx idx0 (row0, col0) (or_introl eq_refl)). lia. }
    assert (Hcopy : forall row col,
              length (set_pixel output0 row0 col0 (image_at image row0 col0) row col) = k).
    { intros row col. unfold set_pixel.
      destruct ((row =? row0)%nat && (col =? col0)%nat); [apply Himage|apply Hout]. }
    destruct (Nat.eqb_spec label0 skin_cluster) as [Hskin|Hother].
    + destruct (IH _ Hcopy Hidx') as [IHok IHfail]. split.
      * intros Hcase. apply IHok. destruct Hcase as [Hk|Hall]; [left; exact Hk|].
        right. intros idx coord Hin. apply (Hall idx coord). right. exact Hin.
      * intros Hk (idx & coord & label & [Heq|Hin] & Hl & Hne).
        -- inversion Heq; subst. rewrite Hlabel in Hl. inversion Hl; subst. contradiction.
        -- apply IHfail; [exact Hk|]. exists idx, coord, label. repeat split; assumption.
    + rewrite Hout. change (length mask_color) with 4%nat.
      destruct (Nat.eqb_spec k 4) as [Hk|Hk].
      * assert (Hmask : forall row col,
                  length (set_pixel output0 row0 col0 mask_color row col) = k).
        { intros row col. unfold set_pixel.
          destruct ((row =? row0)%nat && (col =? col0)%nat); [symmetry; exact Hk|apply Hout]. }
        destruct (IH _ Hmask Hidx') as [IHok _]. split.
        -- intros _. apply IHok. left. exact Hk.
        -- intros Hk'. contradiction.
      * split; [|intros _ _; reflexivity].
        intros [Hk'|Hall]; [contradiction|].
        specialize (Hall idx0 (row0, col0) (or_introl eq_refl)).
        rewrite Hlabel in Hall. inversion Hall. contradiction.
Qed.

Lemma enumerate_snd {A : Type} (l : list A) (a : nat) :
  map snd (combine (seq a (length l)) l) = l.
Proof.
  revert a. induction l as [|x l IH]; intros a; simpl; [reflexivity|].
  rewrite IH. reflexivity.
Qed.

Lemma image_at_length (image : Image) (row col : nat) :
  length (image_at image row col) = match image_alpha image with Some _ => 4 | None => 3 end%nat.
Proof.
  unfold image_at. destruct (image_bgr image row col) as [[b g] r].
  destruct (image_alpha image); reflexivity.
Qed.

(** When the loop that fills the output image finishes. *)
Lemma skin_detection_output_outcome {L : Libraries} (image : Image) (labels : list nat)
  (skin_cluster : nat) :
  length labels = length (valid_pixel_coords image) ->
  (image_alpha image <> None ->
   exists output, skin_detection_output image labels skin_cluster = Output output)
  /\ (image_alpha image = None ->
      (Forall (fun l => l = skin_cluster) labels ->
       exists output, skin_detection_output image labels skin_cluster = Output output)
      /\ (Exists (fun l => l <> skin_cluster) labels ->
          skin_detection_output image labels skin_cluster = OutputValueError)).
Proof.
  intros Hlen. unfold skin_detection_output.
  set (coords := valid_pixel_coords image) in *.
  set (entries := combine (seq 0 (length coords)) coords).
  assert (Hidx : forall idx coord, In (idx, coord) entries -> (idx < length labels)%nat).
  { intros idx coord Hin. apply In_enumerate in Hin.
    rewrite Hlen. apply nth_error_Some. congruence. }
  set (k := match image_alpha image with Some _ => 4 | None => 3 end%nat).
  assert (Hzeros : forall row col, length (zeros_like image row col) = k).
  { intros row col. unfold zeros_like. rewrite length_map. apply image_at_length. }
  destruct (paint_output_result image labels skin_cluster k entries (zeros_like image)
              (image_at_length image) Hzeros Hidx) as [Hok Hfail].
  split.
  - intros Halpha. apply Hok. left. unfold k.
    destruct (image_alpha image); [reflexivity|contradiction].
  - intros Halpha. split.
    + intros Hall. apply Hok. right. intros idx coord Hin.
      pose proof (Hidx idx coord Hin) as Hlt.
      destruct (nth_error labels idx) as [label|] eqn:Hlabel;
        [|apply nth_error_None in Hlabel; lia].
      rewrite Forall_forall in Hall. f_equal. apply Hall.
      apply nth_error_In with idx. exact Hlabel.
    + intros Hex. apply Hfail; [unfold k; rewrite Halpha; discriminate|].
      apply Exists_exists in Hex as (label & Hin & Hne).
      apply In_nth_error in Hin as [idx Hlabel].
      assert (Hlt : (idx < length coords)%nat)
        by (rewrite <- Hlen; apply nth_error_Some; congruence).
      destruct (nth_error coords idx) as [coord|] eqn:Hcoord;
        [|apply nth_error_None in Hcoord; lia].
      exists idx, coord, label. split; [apply In_enumerate; exact Hcoord|].
      split; assumption.
Qed.

(** X9.  With one label per valid pixel: on an image with an opacity plane
    the loop finishes, every valid pixel of the selected cluster holds the
    pixel of the original image, every other valid pixel holds
    [255, 240, 180, 255], and every other position stays zero; on an image
    without opacity plane the loop finishes only when every valid pixel is
    in the selected cluster, and otherwise raises [ValueError]. *)
Theorem output_image_painting (L : Libraries) (image : Image) (labels : list nat)
  (skin_cluster : nat) :
  length labels = length (valid_pixel_coords image) ->
  (forall output, skin_detection_output image labels skin_cluster = Output output ->
     (forall idx row col label,
        nth_error (valid_pixel_coords image) idx = Some (row, col) ->
        nth_error labels idx = Some label ->
        output row col = if (label =? skin_cluster)%nat
                         then image_at image row col else mask_color)
     /\ (forall row col, ~ In (row, col) (valid_pixel_coords image) ->
                         output row col = map (fun _ => 0) (image_at image row col)))
  /\ (image_alpha image <> None ->
      exists output, skin_detection_output image labels skin_cluster = Output output)
  /\ (image_alpha image = None ->
      (Forall (fun l => l = skin_cluster) labels ->
       exists output, skin_detection_output image labels skin_cluster = Output output)
      /\ (Exists (fun l => l <> skin_cluster) labels ->
          skin_detection_output image labels skin_cluster = OutputValueError)).
Proof.
  intros Hlen.
  split; [|apply skin_detection_output_outcome; exact Hlen].
  unfold skin_detection_output.
  set (coords := valid_pixel_coords image) in *.
  set (entries := combine (seq 0 (length coords)) coords).
  assert (Hsnd : map snd entries = coords) by apply enumerate_snd.
  intros output Hout.
  assert (Hnd : NoDup (map snd entries))
    by (rewrite Hsnd; apply valid_pixel_coords_NoDup).
  destruct (paint_output_written _ _ _ _ _ _ Hnd Hout) as [Hin Hrest]. split.
  - intros idx row col label Hcoord Hlabel.
    destruct (Hin idx row col) as (label' & Hlabel' & Hvalue).
    { apply In_enumerate. exact Hcoord. }
    rewrite Hlabel in Hlabel'. inversion Hlabel'; subst. exact Hvalue.
  - intros row col Hnot. rewrite Hrest by (rewrite Hsnd; exact Hnot). reflexivity.
Qed.

Lemma output_image_painting_witness :
  skin_detection_output (L := Reference.libraries) opaque_bgr_image [0; 1; 0; 1]%nat 0
  = OutputValueError.
Proof.
  refine (proj2 (proj2 (proj2 (output_image_painting Reference.libraries opaque_bgr_image
                                 [0; 1; 0; 1]%nat 0%nat _)) _) _).
  - reflexivity.
  - reflexivity.
  - right. left. discriminate.
Defined.


(** ** The whole computation under the clusterer's contract *)

Lemma take_Ok {A : Type} (a : list A) (indices : list nat) :
  (forall i, In i indices -> (i < length a)%nat) ->
  exists r, np.take a indices = Ok r.
Proof.
  induction indices as [|i rest IH]; intros Hall; simpl; [eexists; reflexivity|].
  destruct (nth_error a i) as [x|] eqn:Hnth.
  - destruct IH as [xs Hxs]; [intros j Hj; apply Hall; right; exact Hj|].
    rewrite Hxs. simpl. eexists; reflexivity.
  - exfalso. apply nth_error_None in Hnth.
    specialize (Hall i (or_introl eq_refl)). lia.
Qed.

Lemma members_In (pixels : list RGB) (labels : list nat) (i : nat) (p : RGB) :
  In p (members pixels labels i) -> In p pixels.
Proof.
  unfold members. intros Hin. apply in_map_iff in Hin as ([p' l] & Heq & Hin).
  simpl in Heq. subst p'. apply filter_In in Hin as [Hin _].
  apply in_combine_l in Hin. exact Hin.
Qed.

Lemma center_pixels_bound {L : Libraries} (image : Image) (idx : nat) :
  In idx (center_pixels image) -> (idx < length (valid_pixel_coords image))%nat.
Proof.
  intros Hin. apply center_pixels_In in Hin as (row & col & Hnth & _).
  apply nth_error_Some. congruence.
Qed.

Lemma pixels_In {L : Libraries} (image : Image) (p : RGB) :
  In p (pixels image) ->
  exists row col, In (row, col) (valid_pixel_coords image)
    /\ let '(b, g, r) :=
         bilateralFilter (height image) (width image) (image_bgr image) row col in
       p = normalized_rgb r g b.
Proof.
  unfold pixels. rewrite extract_entries, map_map. intros Hin.
  apply in_map_iff in Hin as ([row col] & Heq & Hin).
  exists row, col. split; [exact Hin|].
  unfold entry_at in Heq.
  destruct (bilateralFilter _ _ _ row col) as [[b g] r].
  destruct (cvtColor_BGR2HSV b g r) as [[h s] v].
  destruct (cvtColor_BGR2YCrCb b g r) as [[y cr] cb].
  simpl in Heq. symmetry. exact Heq.
Qed.

Section Analysis.
Context {L : Libraries}.

(** What is left of [display_skin_analysis] once the clusterer has answered
    and the centre patch is not empty: the selection among the centre
    pixels, the output image, the summary of the selected cluster. *)
Lemma display_after_clustering (image : Image) :
  PixelClusterer_contract KMeans_fit ->
  (5 <= length (valid_pixel_coords image))%nat -> center_pixels image <> [] ->
  exists labels colors center_labels,
    KMeans_fit (features image) = Some labels
    /\ length labels = length (valid_pixel_coords image)
    /\ np.take (pixels image) (center_pixels image) = Ok colors
    /\ np.take labels (center_pixels image) = Ok center_labels
    /\ length colors = length center_labels
    /\ Exists (fun l => (l < 5)%nat) center_labels
    /\ (forall e, get_dominant_non_dark_cluster colors center_labels 5 = Raise e ->
                  display_skin_analysis image = Raise e)
    /\ (forall skin, get_dominant_non_dark_cluster colors center_labels 5 = Ok skin ->
          In skin labels
          /\ members (pixels image) labels skin <> []
          /\ (skin_detection_output image labels skin = OutputValueError ->
              display_skin_analysis image = Raise BroadcastError)
          /\ (forall output, skin_detection_output image labels skin = Output output ->
                display_skin_analysis image =
                (rgb <- skin_tone_color (members (pixels image) labels skin) ;;
                 let '(r, g, b) := rgb in
                 Ok (rgb_to_lab r g b, get_lightness_description (rgb_to_lab r g b), rgb)))).
Proof.
  intros Hcontract HN Hcenter.
  destruct (Hcontract (features image)) as [_ Hmany].
  rewrite features_length in Hmany.
  destruct (Hmany HN) as (labels & Hfit & Hlen & Hrange).
  destruct (take_Ok (pixels image) (center_pixels image)) as [colors Hcolors].
  { intros i Hi. rewrite pixels_length. apply center_pixels_bound. exact Hi. }
  destruct (take_Ok labels (center_pixels image)) as [center_labels Hlabels].
  { intros i Hi. rewrite Hlen. apply center_pixels_bound. exact Hi. }
  pose proof (take_length _ _ _ Hcolors) as Hlen_colors.
  pose proof (take_length _ _ _ Hlabels) as Hlen_labels.
  assert (Hex : Exists (fun l => (l < 5)%nat) center_labels).
  { destruct center_labels as [|l ls].
    - destruct (center_pixels image); [contradiction|discriminate].
    - apply Exists_cons_hd. rewrite Forall_forall in Hrange. apply Hrange.
      apply (take_In _ _ _ Hlabels). left. reflexivity. }
  assert (Hpl : length (pixels image) = length labels)
    by (rewrite pixels_length, Hlen; reflexivity).
  exists labels, colors, center_labels.
  split; [exact Hfit|]. split; [exact Hlen|]. split; [exact Hcolors|].
  split; [exact Hlabels|]. split; [congruence|]. split; [exact Hex|].
  unfold display_skin_analysis. cbv zeta. rewrite pixels_length.
  destruct (Nat.eqb_spec (length (valid_pixel_coords image)) 0) as [H0|_]; [lia|].
  rewrite Hfit. cbn [bind].
  destruct (Nat.eqb_spec (length (center_pixels image)) 0) as [H0|_].
  { apply length_zero_iff_nil in H0. contradiction. }
  rewrite Hcolors, Hlabels. cbn [bind].
  split.
  - intros e He. rewrite He. reflexivity.
  - intros skin Hskin. rewrite Hskin. cbn [bind].
    apply get_dominant_represented in Hskin as [Hin _].
    apply (take_In _ _ _ Hlabels) in Hin.
    pose proof (members_nonempty _ _ _ Hpl Hin) as Hmembers.
    split; [exact Hin|]. split; [exact Hmembers|]. split.
    + intros Hout. rewrite Hout. reflexivity.
    + intros output Hout. rewrite Hout. cbn [bind].
      rewrite boolean_index_Ok by (rewrite length_map; exact Hpl).
      rewrite mask_members. cbn [bind].
      destruct (Nat.eqb_spec (length (members (pixels image) labels skin)) 0) as [H0|_].
      { apply length_zero_iff_nil in H0. contradiction. }
      reflexivity.
Qed.

(** With one label per valid pixel the loop that fills the output image
    does not run out of labels. *)
Lemma skin_detection_output_indexed (image : Image) (labels : list nat) (skin : nat) :
  length labels = length (valid_pixel_coords image) ->
  skin_detection_output image labels skin <> OutputIndexError
  /\ (skin_detection_output image labels skin = OutputValueError -> image_alpha image = None).
Proof.
  intros Hlen.
  destruct (skin_detection_output_outcome image labels skin Hlen) as [Halpha Hnone].
  destruct (image_alpha image) as [alpha|] eqn:Ha.
  - destruct Halpha as [output Hout]; [discriminate|]. rewrite Hout.
    split; [discriminate|discriminate].
  - destruct (Hnone eq_refl) as [Hall Hex].
    destruct (Forall_Exists_dec (fun l => l = skin) (fun l => Nat.eq_dec l skin) labels)
      as [Hf|He].
    + destruct (Hall Hf) as [output Hout]. rewrite Hout. split; discriminate.
    + rewrite (Hex He). split; [discriminate|reflexivity].
Qed.

End Analysis.

(** X10.  With a clusterer that honours its contract, the computation of
    the returned triple raises nothing but [EmptyInputError],
    [InsufficientDataError], [EmptyCenterPatchError], the [ValueError] of
    the output-image loop (only on an image without opacity plane) and the
    exceptions of [int] on a median that is not finite; never [IndexError]
    or [NoSkinPixelsError].  With five or more valid pixels, one of them in
    the centre patch, and finite medians, a cluster is selected among the
    centre pixels; on an image with an opacity plane (or when all valid
    pixels are in the selected cluster) the computation returns the summary
    of all valid pixels of that cluster with the description of its
    lightness; on an image without opacity plane with a valid pixel outside
    the selected cluster it raises the [ValueError] of the output loop. *)
Theorem analysis_outcome (L : Libraries) (image : Image) :
  PixelClusterer_contract KMeans_fit ->
  (display_skin_analysis image = Raise EmptyInputError
   \/ display_skin_analysis image = Raise InsufficientDataError
   \/ display_skin_analysis image = Raise EmptyCenterPatchError
   \/ (display_skin_analysis image = Raise BroadcastError /\ image_alpha image = None)
   \/ (exists e, display_skin_analysis image = Raise e /\ conversion_error e)
   \/ exists profile, display_skin_analysis image = Ok profile)
  /\ ((5 <= length (valid_pixel_coords image))%nat -> center_pixels image <> [] ->
      (forall ps, ps <> [] -> incl ps (pixels image) -> convertible (np_median ps) = true) ->
      exists labels colors center_labels skin_cluster,
        KMeans_fit (features image) = Some labels
        /\ np.take (pixels image) (center_pixels image) = Ok colors
        /\ np.take labels (center_pixels image) = Ok center_labels
        /\ get_dominant_non_dark_cluster colors center_labels 5 = Ok skin_cluster
        /\ In skin_cluster labels
        /\ (image_alpha image <> None \/ Forall (fun l => l = skin_cluster) labels ->
            exists output r g b,
              skin_detection_output image labels skin_cluster = Output output
              /\ skin_tone_color (members (pixels image) labels skin_cluster) = Ok (r, g, b)
              /\ display_skin_analysis image
                 = Ok (rgb_to_lab r g b, get_lightness_description (rgb_to_lab r g b),
                       (r, g, b)))
        /\ (image_alpha image = None -> Exists (fun l => l <> skin_cluster) labels ->
            display_skin_analysis image = Raise BroadcastError)).
Proof.
  intros Hcontract.
  destruct (Hcontract (features image)) as [Hfew Hmany].
  rewrite features_length in Hfew, Hmany.
  split.
  - destruct (Nat.eq_dec (length (valid_pixel_coords image)) 0) as [H0|Hpos].
    { left. unfold display_skin_analysis. rewrite pixels_length, H0. reflexivity. }
    destruct (Nat.lt_ge_cases (length (valid_pixel_coords image)) 5) as [Hlt|Hge].
    { right. left. unfold display_skin_analysis. rewrite pixels_length.
      destruct (Nat.eqb_spec (length (valid_pixel_coords image)) 0) as [H0|_]; [contradiction|].
      rewrite (Hfew Hlt). reflexivity. }
    destruct (center_pixels image) as [|i rest] eqn:Hcenter.
    { right. right. left.
      destruct (Hmany Hge) as (labels & Hfit & _).
      unfold display_skin_analysis. rewrite pixels_length.
      destruct (Nat.eqb_spec (length (valid_pixel_coords image)) 0) as [H0|_]; [contradiction|].
      rewrite Hfit, Hcenter. reflexivity. }
    right. right. right.
    destruct (display_after_clustering image Hcontract Hge)
      as (labels & colors & cl & _ & Hlen & _ & _ & Hcl & Hex & Hraise & Hok);
      [rewrite Hcenter; discriminate|].
    destruct (get_dominant_non_dark_cluster colors cl 5) as [skin|e] eqn:Hskin.
    + destruct (Hok skin eq_refl) as (_ & _ & Hvalue & Houtput).
      destruct (skin_detection_output_indexed image labels skin Hlen) as [Hindex Halpha].
      destruct (skin_detection_output image labels skin) as [output| |] eqn:Hout.
      * rewrite (Houtput output eq_refl).
        destruct (skin_tone_color (members (pixels image) labels skin))
          as [[[r g] b]|e] eqn:Hcolor; cbn [bind].
        -- right. right. eexists. reflexivity.
        -- right. left. exists e. split; [reflexivity|].
           apply skin_tone_color_Raise in Hcolor as [He _]. exact He.
      * contradiction.
      * left. split; [apply Hvalue; reflexivity|apply Halpha; reflexivity].
    + right. left. exists e. split; [apply Hraise; reflexivity|].
      destruct (get_dominant_outcome colors cl 5 Hcl Hex)
        as [(id & Hid & _)|(e' & j & He' & Hconv & _)]; [congruence|].
      rewrite Hskin in He'. inversion He'; subst e'. exact Hconv.
  - intros HN Hcenter Hconv.
    destruct (display_after_clustering image Hcontract HN Hcenter)
      as (labels & colors & cl & Hfit & Hlen & Hcolors & Hlabels & Hcl & Hex & _ & Hok).
    destruct (get_dominant_succeeds colors cl 5 Hcl Hex) as (skin & Hskin & _).
    { intros i _ Hm. apply Hconv; [exact Hm|].
      intros p Hp. apply members_In in Hp. apply (take_In _ _ _ Hcolors). exact Hp. }
    destruct (Hok skin Hskin) as (Hin & Hmembers & Hvalue & Houtput).
    destruct (skin_detection_output_outcome image labels skin Hlen) as [Halpha Hnone].
    exists labels, colors, cl, skin.
    repeat (split; [assumption|]). split.
    + intros Hcase.
      assert (Hout : exists output, skin_detection_output image labels skin = Output output).
      { destruct (image_alpha image) as [alpha|] eqn:Ha.
        - apply Halpha. discriminate.
        - destruct Hcase as [Hcase|Hall]; [contradiction|].
          apply (proj1 (Hnone eq_refl)). exact Hall. }
      destruct Hout as [output Hout].
      assert (Hc : convertible (np_median (kept_pixels (members (pixels image) labels skin)))
                   = true).
      { apply Hconv; [apply kept_pixels_nonempty; exact Hmembers|].
        intros p Hp. apply kept_pixels_incl in Hp. apply members_In in Hp. exact Hp. }
      pose proof (skin_tone_color_kept (members (pixels image) labels skin)) as Hcolor.
      rewrite (to_8bit_Ok _ Hc) in Hcolor.
      eexists output, _, _, _. split; [exact Hout|]. split; [exact Hcolor|].
      rewrite (Houtput output Hout), Hcolor. reflexivity.
    + intros Ha Hother. apply Hvalue. apply (proj2 (Hnone Ha)). exact Hother.
Qed.

(** The reference median of pixels of one colour is that colour, when
    halving the double of each channel gives the channel back. *)
Lemma all_equal_repeat {A : Type} (c : A) (l : list A) :
  Forall (fun p => p = c) l -> l = repeat c (length l).
Proof.
  induction 1 as [|p l Hp _ IH]; simpl; [reflexivity|].
  rewrite Hp, <- IH. reflexivity.
Qed.

Lemma Reference_sort_repeat (x : float) (n : nat) :
  (x <? x)%float = false -> Reference.sort (repeat x n) = repeat x n.
Proof.
  intros Hx. unfold Reference.sort, np.sort_by.
  induction n as [|n IH]; simpl; [reflexivity|].
  rewrite IH. destruct n as [|n]; simpl; [reflexivity|].
  rewrite Hx. reflexivity.
Qed.

Lemma Reference_median1_repeat (x : float) (n : nat) :
  (x <? x)%float = false -> ((x + x) / 2)%float = x -> (0 < n)%nat ->
  Reference.median1 (repeat x n) = x.
Proof.
  intros Hx Hhalf Hn. unfold Reference.median1.
  rewrite (Reference_sort_repeat x n Hx), repeat_length.
  assert (Hlt : (n / 2 < n)%nat) by (apply Nat.div_lt; lia).
  destruct (Nat.even n).
  - rewrite !nth_repeat_lt by lia. exact Hhalf.
  - rewrite nth_repeat_lt by lia. reflexivity.
Qed.

Lemma Reference_median_uniform (c : RGB) (ps : list RGB) :
  (forall x, In x [np.red c; np.green c; np.blue c] ->
             (x <? x)%float = false /\ ((x + x) / 2)%float = x) ->
  ps <> [] -> Forall (fun p => p = c) ps ->
  np_median (Libraries := Reference.libraries) ps = c.
Proof.
  intros Hc Hne Hall. rewrite (all_equal_repeat c ps Hall).
  assert (Hn : (0 < length ps)%nat) by (destruct ps; [contradiction|simpl; lia]).
  cbn [np_median Reference.libraries]. unfold Reference.axis0.
  rewrite !map_repeat.
  destruct (Hc (np.red c)) as [Hr1 Hr2]; [simpl; auto|].
  destruct (Hc (np.green c)) as [Hg1 Hg2]; [simpl; auto|].
  destruct (Hc (np.blue c)) as [Hb1 Hb2]; [simpl; auto|].
  rewrite !Reference_median1_repeat by assumption.
  destruct c as [[r g] b]. reflexivity.
Qed.

(** The valid pixels of an image whose filtered colour is constant. *)
Lemma uniform_pixels {L : Libraries} (image : Image) (b g r : Z) (ps : list RGB) :
  (forall row col, In (row, col) (valid_pixel_coords image) ->
     bilateralFilter (height image) (width image) (image_bgr image) row col = (b, g, r)) ->
  incl ps (pixels image) -> Forall (fun p => p = normalized_rgb r g b) ps.
Proof.
  intros Huniform Hincl. apply Forall_forall. intros p Hp.
  apply Hincl in Hp. apply pixels_In in Hp as (row & col & Hcoord & Hp).
  rewrite (Huniform row col Hcoord) in Hp. exact Hp.
Qed.

Lemma analysis_outcome_witness :
  exists L_value category,
    display_skin_analysis (L := Reference.libraries)
      (uniform_image 4 4 (120, 150, 200) (Some 255))
    = Ok (L_value, category, (200, 150, 120)).
Proof.
  destruct (proj2 (analysis_outcome Reference.libraries
                     (uniform_image 4 4 (120, 150, 200) (Some 255)) Reference_fit_contract))
    as (labels & colors & cl & skin & _ & _ & _ & _ & _ & Hreturns & _).
  - vm_compute. lia.
  - vm_compute. discriminate.
  - intros ps Hne Hincl.
    rewrite (Reference_median_uniform (normalized_rgb 200 150 120) ps).
    + vm_compute. reflexivity.
    + intros x [<-|[<-|[<-|[]]]]; vm_compute; split; reflexivity.
    + exact Hne.
    + apply (uniform_pixels (L := Reference.libraries)
               (uniform_image 4 4 (120, 150, 200) (Some 255)) 120 150 200).
      * intros row col _. reflexivity.
      * exact Hincl.
  - destruct Hreturns as (output & r & g & b & _ & _ & Hdisplay); [left; discriminate|].
    assert (Hrgb : exists L_value category,
              display_skin_analysis (L := Reference.libraries)
                (uniform_image 4 4 (120, 150, 200) (Some 255))
              = Ok (L_value, category, (200, 150, 120)))
      by (vm_compute; eexists _, _; reflexivity).
    destruct Hrgb as (L_value & category & Hrgb).
    rewrite Hdisplay in Hrgb. inversion Hrgb; subst.
    eexists _, _. exact Hdisplay.
Defined.

(** ** An image of one colour *)

(** X11.  On an image with an opacity plane, when the bilateral filter
    leaves every valid pixel with the same 8-bit colour, the median of
    pixels of that one colour is the colour, the clusterer honours its
    contract and the centre patch is not empty (five or more valid
    pixels), the colour of the returned triple is exactly that colour,
    however the clusterer labels the pixels, and the category is the
    description of its lightness. *)
Theorem uniform_image_color (L : Libraries) (image : Image) (b g r : Z) :
  PixelClusterer_contract KMeans_fit ->
  (5 <= length (valid_pixel_coords image))%nat ->
  center_pixels image <> [] ->
  image_alpha image <> None ->
  0 <= r <= 255 -> 0 <= g <= 255 -> 0 <= b <= 255 ->
  (forall row col, In (row, col) (valid_pixel_coords image) ->
     bilateralFilter (height image) (width image) (image_bgr image) row col = (b, g, r)) ->
  (forall ps, ps <> [] -> Forall (fun p => p = normalized_rgb r g b) ps ->
              np_median ps = normalized_rgb r g b) ->
  display_skin_analysis image
  = Ok (rgb_to_lab r g b, get_lightness_description (rgb_to_lab r g b), (r, g, b)).
Proof.
  intros Hcontract HN Hcenter Halpha Hr Hg Hb Huniform Hmedian.
  destruct (display_after_clustering image Hcontract HN Hcenter)
    as (labels & colors & cl & Hfit & Hlen & Hcolors & Hlabels & Hcl & Hex & _ & Hok).
  pose proof (to_8bit_normalized r g b Hr Hg Hb) as Hrgb.
  destruct (get_dominant_succeeds colors cl 5 Hcl Hex) as (skin & Hskin & _).
  { intros i _ Hm. rewrite Hmedian; [apply (to_8bit_convertible _ _ Hrgb)|exact Hm|].
    apply (uniform_pixels image b g r); [exact Huniform|].
    intros p Hp. apply members_In in Hp. apply (take_In _ _ _ Hcolors). exact Hp. }
  destruct (Hok skin Hskin) as (_ & Hmembers & _ & Houtput).
  destruct (skin_detection_output_outcome image labels skin Hlen) as [Hfinishes _].
  destruct (Hfinishes Halpha) as [output Hout].
  assert (Hall : Forall (fun p => p = normalized_rgb r g b)
                   (members (pixels image) labels skin)).
  { apply (uniform_pixels image b g r); [exact Huniform|].
    intros p Hp. apply members_In in Hp. exact Hp. }
  rewrite (Houtput output Hout).
  rewrite (skin_tone_color_uniform _ _ Hall (Hmedian _ Hmembers Hall)), Hrgb.
  reflexivity.
Qed.

Lemma uniform_image_color_witness :
  exists L_value,
    display_skin_analysis (L := Reference.libraries)
      (uniform_image 4 4 (120, 150, 200) (Some 255))
    = Ok (L_value, get_lightness_description L_value, (200, 150, 120)).
Proof.
  eexists.
  apply (uniform_image_color Reference.libraries
           (uniform_image 4 4 (120, 150, 200) (Some 255)) 120 150 200); try lia.
  - exact Reference_fit_contract.
  - vm_compute. lia.
  - vm_compute. discriminate.
  - discriminate.
  - intros row col _. reflexivity.
  - intros ps Hne Hall. apply Reference_median_uniform; [|exact Hne|exact Hall].
    intros x [<-|[<-|[<-|[]]]]; vm_compute; split; reflexivity.
Defined.

(** ** Images too small for a centre patch *)

Lemma display_needs_center_pixels {L : Libraries} (image : Image) (profile : SkinProfile) :
  display_skin_analysis image = Ok profile -> center_pixels image <> [].
Proof.
  unfold display_skin_analysis. intros H Hnil.
  destruct (length (pixels image) =? 0)%nat; [discriminate|].
  destruct (KMeans_fit (features image)); simpl in H; [|discriminate].
  rewrite Hnil in H. simpl in H. discriminate.
Qed.

(** X12.  The half-width of the centre patch is [min(width, height) // 4]:
    an image less than four pixels wide or high has an empty patch and
    [display_skin_analysis] never returns for it, with any clusterer; from
    four pixels on in both directions the pixel at
    [(height // 2, width // 2)], when valid, is in the patch. *)
Theorem center_patch_needs_four_pixels (L : Libraries) (image : Image) :
  ((width image < 4)%nat \/ (height image < 4)%nat ->
   center_pixels image = []
   /\ forall profile, display_skin_analysis image <> Ok profile)
  /\ ((4 <= width image)%nat -> (4 <= height image)%nat ->
      127 < opacity image (height image / 2) (width image / 2) ->
      exists idx, In idx (center_pixels image)
        /\ nth_error (valid_pixel_coords image) idx
           = Some ((height image / 2)%nat, (width image / 2)%nat)).
Proof.
  split.
  - intros Hsmall.
    assert (Hnil : center_pixels image = []).
    { apply no_element_nil. intros idx Hin.
      apply center_pixels_In in Hin as (row & col & _ & [Hcol _]).
      assert (Hzero : Z.min (Z.of_nat (width image)) (Z.of_nat (height image)) / 4 = 0)
        by (apply Z.div_small; lia).
      rewrite Hzero in Hcol. lia. }
    split; [exact Hnil|].
    intros profile H. apply display_needs_center_pixels in H. contradiction.
  - intros Hw Hh Ha.
    assert (Hin : In ((height image / 2)%nat, (width image / 2)%nat) (valid_pixel_coords image)).
    { apply valid_pixel_coords_In. split; [|split; [|exact Ha]].
      - apply Nat.div_lt; lia.
      - apply Nat.div_lt; lia. }
    apply In_nth_error in Hin as [idx Hidx].
    exists idx. split; [|exact Hidx].
    apply center_pixels_In. eexists _, _. split; [exact Hidx|].
    unfold in_patch. cbv zeta.
    rewrite !Nat2Z.inj_div. change (Z.of_nat 2) with 2.
    rewrite !Z.sub_diag. change (Z.abs 0) with 0.
    assert (1 <= Z.min (Z.of_nat (width image)) (Z.of_nat (height image)) / 4)
      by (apply Z.div_le_lower_bound; lia).
    lia.
Qed.

Lemma center_patch_needs_four_pixels_witness :
  center_pixels (L := Reference.libraries) small_image = []
  /\ forall profile, display_skin_analysis (L := Reference.libraries) small_image <> Ok profile.
Proof.
  apply (proj1 (center_patch_needs_four_pixels Reference.libraries small_image)).
  left. vm_compute. lia.
Defined.
